(** * flask-router: decorator-chain dispatch and route-tree flattening

    A shallow embedding of [main.py].  The program has two parts:

    - [dispatch_request] builds a chain of handler objects from a Python
      list of classes (popping the list as it goes) and calls a controller
      on the outermost object;
    - [Router.add_routes] / [Router.add_route] walk a tree of [Include]
      and [Route] objects and register one dispatch closure per leaf with
      the application's URL map.

    Python lists of classes are mutable objects that the program shares
    (the closure registered for a route keeps a reference to its list), so
    they live in an explicit store and are named by their address. *)

From stdpp Require Import base list strings.
From Stdlib Require Import Ascii Lia.

Set Warnings "-register-all".

Local Open Scope string_scope.
Local Open Scope list_scope.

(** ** Python values, exceptions and outcomes *)

(** The values that handlers and controllers of the program return: the
    strings, booleans and (insertion-ordered) dictionaries of [main.py]. *)
Inductive value : Type :=
| VNone
| VBool (b : bool)
| VStr (s : string)
| VDict (items : list (string * value)).

(** Keyword arguments [uri_args]: a mapping from names to strings. *)
Definition kwargs : Type := list (string * string).

(** Exceptions.  [IndexError], [TypeError] and [AttributeError] are the
    built-in exceptions the interpreter raises on the paths of [main.py];
    [NotFound] is the framework's answer to a URL that no rule matches;
    [UserError] stands for any other exception class, by its name. *)
Inductive exn : Type :=
| IndexError
| TypeError
| AttributeError
| NotFound
| UserError (cls : string).

Definition ConfigurationError : exn := UserError "ConfigurationError".
Definition ConstructionError : exn := UserError "ConstructionError".

(** The outcome of a computation: a returned value or a raised exception.
    [Stuck] is not a Python outcome; it marks a run of the model that left
    the domain where the model speaks for the program (an address with no
    cell in the store, a loop bound that was too small, or a name of the
    form [__x__] whose meaning is the interpreter's business). *)
Inductive outcome (A : Type) : Type :=
| Ret (a : A)
| Raise (e : exn)
| Stuck.

Arguments Ret {A} a.
Arguments Raise {A} e.
Arguments Stuck {A}.

Definition obind {A B : Type} (o : outcome A) (k : A -> outcome B) : outcome B :=
  match o with
  | Ret a => k a
  | Raise e => Raise e
  | Stuck => Stuck
  end.

(** [d[key] = v] on a value: a dictionary keeps the position of a key it
    already has and appends a new key; anything else does not support item
    assignment. *)
Fixpoint dict_set (items : list (string * value)) (key : string) (v : value)
  : list (string * value) :=
  match items with
  | [] => [(key, v)]
  | (k, x) :: rest =>
      if String.eqb k key then (k, v) :: rest else (k, x) :: dict_set rest key v
  end.

Definition setitem (d : value) (key : string) (v : value) : outcome value :=
  match d with
  | VDict items => Ret (VDict (dict_set items key v))
  | _ => Raise TypeError
  end.

(** ** Classes and objects *)

(** A method body.  Its first argument evaluates a call of a named
    operation on [self.parent] with keyword arguments, the only use the
    methods of [main.py] make of [self]. *)
Definition method : Type :=
  (string -> kwargs -> outcome value) -> kwargs -> outcome value.

(** The two base classes of [main.py]. *)
Inductive base : Type :=
| Handler      (* class Handler: no __init__, no __getattr__ *)
| Component.   (* class Component: __init__(self, parent), __getattr__ *)

(** A class deriving from [Handler] or [Component] that adds methods and
    keeps the base's [__init__] and, for a component, its [__getattr__]. *)
Record klass : Type := Class {
  cls_name : string;
  cls_base : base;
  cls_methods : list (string * method)
}.

Fixpoint assoc {V : Type} (name : string) (l : list (string * V)) : option V :=
  match l with
  | [] => None
  | (k, v) :: rest => if String.eqb k name then Some v else assoc name rest
  end.

(** Instances.  An instance of a [Handler] class has no attribute of its
    own; an instance of a [Component] class has [self.parent]. *)
Inductive obj : Type :=
| Inst (k : klass)
| Wrap (k : klass) (parent : obj).

(** What an attribute lookup yields: the object stored in an instance
    attribute, a method of the class bound to the instance, or an attribute
    that the instance has from its base class or from [object]. *)
Inductive attribute : Type :=
| Instance (o : obj)
| BoundMethod (f : kwargs -> outcome value)
| Inherited (name : string).

(** Names of the form [__x__], which the language reserves. *)
Definition reserved (name : string) : bool :=
  String.prefix "__" name && String.prefix "__" (String.rev name).

(** What the base classes of [main.py] define themselves: [Component] has
    [__init__] and [__getattr__], [Handler] has nothing. *)
Definition base_names (b : base) : list string :=
  match b with
  | Handler => []
  | Component => ["__init__"; "__getattr__"]
  end.

(** What every instance has from [object] and from being an instance of a
    class written with a [class] statement. *)
Definition object_names : list string :=
  ["__class__"; "__delattr__"; "__dict__"; "__dir__"; "__doc__"; "__eq__";
   "__format__"; "__ge__"; "__getattribute__"; "__gt__"; "__hash__";
   "__init__"; "__init_subclass__"; "__le__"; "__lt__"; "__module__";
   "__ne__"; "__new__"; "__reduce__"; "__reduce_ex__"; "__repr__";
   "__setattr__"; "__sizeof__"; "__str__"; "__subclasshook__";
   "__weakref__"].

(** Normal lookup finds [name] on every instance of a class with base [b],
    whatever the class adds. *)
Definition inherited (b : base) (name : string) : bool :=
  existsb (String.eqb name) (base_names b ++ object_names).

(** Calling an attribute with keyword arguments.  An instance is not
    callable.  What the attributes that come from the base class or from
    [object] do when called is not described. *)
Definition call (a : attribute) (kw : kwargs) : outcome value :=
  match a with
  | BoundMethod f => f kw
  | Instance _ => Raise TypeError
  | Inherited _ => Stuck
  end.

(** [getattr(o, name)].  Normal lookup comes first: the instance attribute
    [parent] of a component, then the methods of the class, then what the
    base class and [object] provide, which is found on the object itself.
    Only when all fail does [Component.__getattr__] run, which returns
    [getattr(self.parent, name)]; a [Handler] has no such fallback.  Whether
    the interpreter provides a name of the form [__x__] that is not in the
    lists above depends on its version: the model does not follow such a
    name. *)
Fixpoint getattr (o : obj) (name : string) : outcome attribute :=
  match o with
  | Inst k =>
      match assoc name (cls_methods k) with
      | Some m => Ret (BoundMethod (m (fun _ _ => Raise AttributeError)))
      | None =>
          if inherited Handler name then Ret (Inherited name)
          else if reserved name then Stuck
          else Raise AttributeError
      end
  | Wrap k parent =>
      if String.eqb name "parent" then Ret (Instance parent)
      else
        match assoc name (cls_methods k) with
        | Some m =>
            Ret (BoundMethod
                   (m (fun n kw => obind (getattr parent n) (fun a => call a kw))))
        | None =>
            if inherited Component name then Ret (Inherited name)
            else if reserved name then Stuck
            else getattr parent name
        end
  end.

(** Calling the operation [name] of [o] with keyword arguments [kw]. *)
Definition invoke (o : obj) (name : string) (kw : kwargs) : outcome value :=
  obind (getattr o name) (fun a => call a kw).

(** Calling a class.  [K()] builds an instance of a [Handler] class and
    fails on a [Component] class, whose [__init__] needs [parent]; [K(h)]
    builds a wrapper from a [Component] class and fails on a [Handler]
    class, which takes no argument. *)
Definition call0 (k : klass) : outcome obj :=
  match cls_base k with
  | Handler => Ret (Inst k)
  | Component => Raise TypeError
  end.

Definition call1 (k : klass) (parent : obj) : outcome obj :=
  match cls_base k with
  | Handler => Raise TypeError
  | Component => Ret (Wrap k parent)
  end.

(** ** The state of the program *)

(** Addresses of list objects in the store. *)
Definition loc : Type := nat.

(** A controller is called as [fn(handler, **uri_args)].  It yields what it
    printed and what it returned or raised. *)
Definition controller_t : Type := obj -> kwargs -> list value * outcome value.

(** The closure [functools.partial(dispatch_request, fn=..., decorators=...)].
    It holds a reference to one list object, not a copy of its items. *)
Record partial : Type := Partial {
  fn : controller_t;
  decorators : loc
}.

(** One entry of the application's URL map, as [add_url_rule] receives it. *)
Record url_rule : Type := UrlRule {
  rule : string;
  endpoint : option string;
  view_func : partial;
  methods : list string
}.

Record state : Type := State {
  store : list (list klass);   (* the list objects, by address *)
  url_map : list url_rule;     (* app.url_map *)
  stdout : list value          (* the objects printed so far *)
}.

Definition M (A : Type) : Type := state -> outcome A * state.

Definition ret {A : Type} (a : A) : M A := fun st => (Ret a, st).

Definition bind {A B : Type} (c : M A) (k : A -> M B) : M B :=
  fun st =>
    match c st with
    | (Ret a, st') => k a st'
    | (Raise e, st') => (Raise e, st')
    | (Stuck, st') => (Stuck, st')
    end.

Definition raise {A : Type} (e : exn) : M A := fun st => (Raise e, st).

Definition lift {A : Type} (o : outcome A) : M A := fun st => (o, st).

Declare Scope m_scope.
Delimit Scope m_scope with m.
Notation "x <- c ;; k" := (bind c (fun x => k))
  (at level 100, c at next level, k at level 200, right associativity) : m_scope.
Notation "c ;; k" := (bind c (fun _ => k))
  (at level 100, k at level 200, right associativity) : m_scope.
Local Open Scope m_scope.

Definition set_store (st : state) (s : list (list klass)) : state :=
  {| store := s; url_map := url_map st; stdout := stdout st |}.

(** A list display or a list concatenation makes a new list object. *)
Definition alloc (items : list klass) : M loc :=
  fun st => (Ret (length (store st)), set_store st (store st ++ [items])).

Definition read (l : loc) : M (list klass) :=
  fun st =>
    match store st !! l with
    | Some items => (Ret items, st)
    | None => (Stuck, st)
    end.

(** The last item of a list and the items before it. *)
Fixpoint unsnoc {A : Type} (l : list A) : option (list A * A) :=
  match l with
  | [] => None
  | x :: rest =>
      match unsnoc rest with
      | None => Some ([], x)
      | Some (init, y) => Some (x :: init, y)
      end
  end.

(** [l.pop()]: removes the last item of the list object at [l], in place,
    and returns it; [IndexError] on an empty list. *)
Definition list_pop (l : loc) : M klass :=
  fun st =>
    match store st !! l with
    | Some items =>
        match unsnoc items with
        | Some (init, x) => (Ret x, set_store st (<[l := init]> (store st)))
        | None => (Raise IndexError, st)
        end
    | None => (Stuck, st)
    end.

(** The truth value of a list: it is not empty. *)
Definition list_bool (l : loc) : M bool :=
  items <- read l ;;
  ret (match items with [] => false | _ :: _ => true end).

(** [a + b] on lists: a new list object; [a] and [b] are only read. *)
Definition list_add (a b : loc) : M loc :=
  xs <- read a ;;
  ys <- read b ;;
  alloc (xs ++ ys).

(** [components or []]: the object itself when it is a list with items, a
    new empty list when it is [None] or an empty list. *)
Definition or_empty (components : option loc) : M loc :=
  match components with
  | None => alloc []
  | Some l =>
      b <- list_bool l ;;
      if b then ret l else alloc []
  end.

(** [print(v)] *)
Definition print (v : value) : M unit :=
  fun st => (Ret tt, {| store := store st; url_map := url_map st;
                        stdout := stdout st ++ [v] |}).

(** [fn(handler, **uri_args)] *)
Definition call_controller (f : controller_t) (handler : obj) (uri_args : kwargs)
  : M value :=
  fun st =>
    let (printed, result) := f handler uri_args in
    (result, {| store := store st; url_map := url_map st;
                stdout := stdout st ++ printed |}).

(** ** dispatch_request *)

(** The loop [while decorators: decorator = decorators.pop();
    handler = decorator(handler)].  Every round shortens the list, so a
    bound above its length at entry is never reached. *)
Fixpoint while_decorators (fuel : nat) (decorators : loc) (handler : obj)
  : M obj :=
  match fuel with
  | O => lift Stuck
  | S fuel' =>
      more <- list_bool decorators ;;
      if more then
        decorator <- list_pop decorators ;;
        handler <- lift (call1 decorator handler) ;;
        while_decorators fuel' decorators handler
      else ret handler
  end.

(** Lines 45 to 52: the handler object that the controller receives. *)
Definition build_handler (decorators : loc) : M obj :=
  handler <- list_pop decorators ;;
  handler <- lift (call0 handler) ;;
  rest <- read decorators ;;
  while_decorators (S (length rest)) decorators handler.

Definition dispatch_request (fn : controller_t) (decorators : loc)
  (uri_args : kwargs) : M value :=
  handler <- build_handler decorators ;;
  call_controller fn handler uri_args.

(** Calling a registered view with the arguments of the matched URL. *)
Definition call_view (p : partial) (uri_args : kwargs) : M value :=
  dispatch_request (fn p) (decorators p) uri_args.

(** ** Routes, includes and the router *)

(** [Route] and [Include] objects.  Their [components] attribute refers to
    a list object of the store; the [routes] of an [Include] may be [None]
    (the alias [Routes] is [Optional[List[RouteLike]]]). *)
Inductive route_like : Type :=
| Route (path : string) (controller : controller_t) (handler : klass)
        (method : string) (name : string) (components : loc)
| Include (prefix : string) (routes : option (list route_like))
          (components : loc) (namespace : string).

(** [Route.__init__] and [Include.__init__]: both store
    [components or []]. *)
Definition Route__init__ (path : string) (controller : controller_t)
  (handler : klass) (method : string) (name : string)
  (components : option loc) : M route_like :=
  components <- or_empty components ;;
  ret (Route path controller handler method name components).

Definition Include__init__ (prefix : string)
  (routes : option (list route_like)) (components : option loc)
  (namespace : string) : M route_like :=
  components <- or_empty components ;;
  ret (Include prefix routes components namespace).

(** ['{}{}'.format(a, b)] on two strings. *)
Definition format2 (a b : string) : string := a +:+ b.

(** [s or None] on a string. *)
Definition str_or_none (s : string) : option string :=
  match s with
  | EmptyString => None
  | String _ _ => Some s
  end.

(** [app.add_url_rule(path, name, handler, methods=[...])].  The URL map
    belongs to the framework; the program only adds to it, one rule per
    call, in call order.  The rule is recorded with the arguments as the
    program passes them; what the framework checks on its side (an endpoint
    registered twice, an endpoint derived from the view) is not part of the
    program. *)
Definition add_url_rule (path : string) (name : option string)
  (handler : partial) (methods : list string) : M unit :=
  fun st =>
    (Ret tt, {| store := store st;
                url_map := url_map st ++ [UrlRule path name handler methods];
                stdout := stdout st |}).

(** [for x in xs: body(x)] *)
Definition for_each {A : Type} (body : A -> M unit) : list A -> M unit :=
  fix go (xs : list A) : M unit :=
    match xs with
    | [] => ret tt
    | x :: rest => body x ;; go rest
    end.

(** The body of [Router.add_routes], with the method it calls on every
    route as a parameter.  Iterating over [None] is a [TypeError]. *)
Definition add_routes_with
  (add_route : route_like -> loc -> string -> string -> M unit)
  (routes : option (list route_like)) (components : option loc)
  (prefix namespace : string) : M unit :=
  components <- or_empty components ;;
  match routes with
  | None => raise TypeError
  | Some routes =>
      for_each (fun route => add_route route components prefix namespace) routes
  end.

Fixpoint add_route (route : route_like) (components : loc)
  (prefix namespace : string) {struct route} : M unit :=
  match route with
  | Include r_prefix r_routes r_components r_namespace =>
      (* Concatenate the namespaces. *)
      let namespace := format2 namespace r_namespace in
      (* Concatenate the prefixes. *)
      let prefix := format2 prefix r_prefix in
      (* Concatenate the components lists. *)
      components <- list_add components r_components ;;
      add_routes_with add_route r_routes (Some components) prefix namespace
  | Route r_path r_controller r_handler r_method r_name r_components =>
      (* Construct the route name. *)
      let name := str_or_none (format2 namespace r_name) in
      (* Construct the URI path. *)
      let path := format2 prefix r_path in
      (* Concatenate components with the concrete class in last place. *)
      inherited <- list_add components r_components ;;
      concrete <- alloc [r_handler] ;;
      components <- list_add inherited concrete ;;
      (* Construct a function with the components pre-specified. *)
      let handler := Partial r_controller components in
      (* Add the URL rule. *)
      add_url_rule path name handler [r_method]
  end.

Definition add_routes : option (list route_like) -> option loc ->
  string -> string -> M unit :=
  add_routes_with add_route.

(** ** The classes, the controller and the routes of the script *)

Definition controller : controller_t :=
  fun handler uri_args =>
    match invoke handler "test" [] with
    | Ret v => ([v], Ret (VStr "hello, world!"))
    | Raise e => ([], Raise e)
    | Stuck => ([], Stuck)
    end.

Definition JSONAPIHandler_test : method :=
  fun _ uri_args => Ret (VDict [("hello", VStr "world")]).

Definition JSONAPIHandler : klass :=
  Class "JSONAPIHandler" Handler [("test", JSONAPIHandler_test)].

Definition A_test : method :=
  fun parent uri_args =>
    obind (parent "test" uri_args) (fun result =>
    setitem result "A" (VBool true)).

Definition A : klass := Class "A" Component [("test", A_test)].

Definition B_test : method :=
  fun parent uri_args =>
    obind (parent "test" uri_args) (fun result =>
    setitem result "B" (VBool true)).

Definition B : klass := Class "B" Component [("test", B_test)].

(** [JSONAPIRoute = functools.partial(Route, handler=JSONAPIHandler)] *)
Definition JSONAPIRoute (path : string) (controller : controller_t)
  (method : string) (name : string) (components : option loc) : M route_like :=
  Route__init__ path controller JSONAPIHandler method name components.

(** The list [routes] the script builds: the displays [[B]] and [[A]] are
    evaluated in argument order. *)
Definition make_routes : M (list route_like) :=
  cB <- alloc [B] ;;
  r <- JSONAPIRoute "/<id>" controller "GET" "test" (Some cB) ;;
  cA <- alloc [A] ;;
  inc <- Include__init__ "/users" (Some [r]) (Some cA) "" ;;
  ret [inc].

(** ** The test client

    URL matching belongs to the framework.  The part the script relies on:
    a path matches a rule segment by segment, a segment [<name>] of the rule
    matches any non-empty segment and binds [name] to it, and the view of
    the first matching rule that allows the method is called with the
    bindings as keyword arguments.  No match is [NotFound]. *)

Fixpoint split_slash (s : string) : list string :=
  match s with
  | EmptyString => [EmptyString]
  | String c rest =>
      if Ascii.eqb c "/"%char then EmptyString :: split_slash rest
      else
        match split_slash rest with
        | [] => [String c EmptyString]
        | seg :: segs => String c seg :: segs
        end
  end.

(** [strip_gt s] is [Some name] when [s] is [name] followed by [>]. *)
Fixpoint strip_gt (s : string) : option string :=
  match s with
  | EmptyString => None
  | String c EmptyString =>
      if Ascii.eqb c ">"%char then Some EmptyString else None
  | String c rest => option_map (String c) (strip_gt rest)
  end.

Definition variable (seg : string) : option string :=
  match seg with
  | String c rest => if Ascii.eqb c "<"%char then strip_gt rest else None
  | EmptyString => None
  end.

Fixpoint match_segments (template url : list string) : option kwargs :=
  match template, url with
  | [], [] => Some []
  | t :: template', u :: url' =>
      match variable t with
      | Some name =>
          match u with
          | EmptyString => None
          | String _ _ =>
              option_map (cons (name, u)) (match_segments template' url')
          end
      | None =>
          if String.eqb t u then match_segments template' url' else None
      end
  | _, _ => None
  end.

Definition match_rule (http_method url : string) (r : url_rule) : option kwargs :=
  if existsb (String.eqb http_method) (methods r)
  then match_segments (split_slash (rule r)) (split_slash url)
  else None.

Fixpoint find_rule (http_method url : string) (rules : list url_rule)
  : option (url_rule * kwargs) :=
  match rules with
  | [] => None
  | r :: rest =>
      match match_rule http_method url r with
      | Some args => Some (r, args)
      | None => find_rule http_method url rest
      end
  end.

(** [client.get(url)], then the body of the response. *)
Definition client_get (url : string) : M value :=
  fun st =>
    match find_rule "GET" url (url_map st) with
    | Some (r, args) => call_view (view_func r) args st
    | None => (Raise NotFound, st)
    end.

(** The script: build the routes, register them, issue one request and
    print the body of the response. *)
Definition main : M unit :=
  routes <- make_routes ;;
  add_routes (Some routes) None "" "" ;;
  get <- client_get "/users/1" ;;
  print get.

Definition initial : state := State [] [] [].

(** ** The constructor chain, as a function of the list's items *)

(** Wrapping [h] with the classes of [popped], which lists them in the
    order the loop pops them (last first).  The second component is what
    the loop leaves unpopped, in the same order. *)
Fixpoint wrap_popped (popped : list klass) (h : obj) : outcome obj * list klass :=
  match popped with
  | [] => (Ret h, [])
  | d :: rest =>
      match call1 d h with
      | Ret h' => wrap_popped rest h'
      | Raise e => (Raise e, rest)
      | Stuck => (Stuck, rest)
      end
  end.

(** What lines 45 to 52 make of a list with the given items: the object
    built (or the exception raised) and the items left in the list. *)
Definition construct (items : list klass) : outcome obj * list klass :=
  match unsnoc items with
  | None => (Raise IndexError, items)
  | Some (ds, c) =>
      match call0 c with
      | Ret h => let r := wrap_popped (rev ds) h in (fst r, rev (snd r))
      | Raise e => (Raise e, ds)
      | Stuck => (Stuck, ds)
      end
  end.

(** [D1(D2(...Dn(C())...))] for the classes [[D1; ...; Dn]] and [C]. *)
Definition nest (ds : list klass) (c : klass) : obj :=
  fold_right Wrap (Inst c) ds.

Definition is_component (k : klass) : Prop := cls_base k = Component.
Definition is_handler (k : klass) : Prop := cls_base k = Handler.

(** A class [d] overrides the operation [op] with the transformation [t]
    when normal lookup on its instances finds a method [op] (so [op] is not
    the instance attribute [parent]) whose body calls the same operation on
    [self.parent] and then applies [t] to the result, as [A.test] and
    [B.test] do. *)
Definition transforms (op : string) (d : klass) (t : value -> outcome value)
  : Prop :=
  op <> "parent" /\
  exists m : method,
    assoc op (cls_methods d) = Some m /\
    forall parent kw, m parent kw = obind (parent op kw) t.

(** Normal attribute lookup on an instance of the component class [d] finds
    [name], or may find it: it is the instance attribute [parent] that
    [Component.__init__] sets, or a method of the class, or a name of the
    form [__x__], which [Component], [object] or the interpreter may
    provide on the instance itself.  [Component.__getattr__] forwards every
    other name. *)
Definition defines (d : klass) (name : string) : bool :=
  String.eqb name "parent" ||
  reserved name ||
  match assoc name (cls_methods d) with
  | Some _ => true
  | None => false
  end.

(** The class adds operations with ordinary names only: it redefines none
    of the hooks of the interpreter ([__init__], [__getattr__],
    [__getattribute__], [__call__] and the like).  All classes of [main.py]
    are such. *)
Definition ordinary (k : klass) : bool :=
  forallb (fun nm => negb (reserved (fst nm))) (cls_methods k).

(** An instance of the component class [d] forwards [name] to its parent:
    the class is ordinary and normal lookup does not find the name. *)
Definition forwards (d : klass) (name : string) : bool :=
  ordinary d && negb (defines d name).

(** ** Registered bindings, as the route tree describes them *)

(** A group on the way from the root to a leaf, and a leaf: the attributes
    of an [Include] and of a [Route]. *)
Record group : Type := Group {
  g_prefix : string;
  g_components : loc;
  g_namespace : string
}.

Record leaf : Type := Leaf {
  l_path : string;
  l_controller : controller_t;
  l_handler : klass;
  l_method : string;
  l_name : string;
  l_components : loc
}.

(** The leaves of a route tree in depth-first order, each with the groups
    above it, outermost first. *)
Fixpoint leaves (r : route_like) : list (list group * leaf) :=
  match r with
  | Route path controller handler method name components =>
      [([], Leaf path controller handler method name components)]
  | Include prefix routes components namespace =>
      match routes with
      | None => []
      | Some rs =>
          map (fun gl => (Group prefix components namespace :: fst gl, snd gl))
              (flat_map leaves rs)
      end
  end.

(** A registered binding: full path, full name or none, full decorator
    list, methods. *)
Record binding : Type := Binding {
  b_path : string;
  b_name : option string;
  b_decorators : list klass;
  b_methods : list string
}.

(** The items of the list object at an address. *)
Definition contents (s : list (list klass)) (l : loc) : list klass :=
  default [] (s !! l).

(** The binding a rule of the URL map stands for: the decorator list is
    what the list object of its closure holds. *)
Definition resolve (s : list (list klass)) (r : url_rule) : binding :=
  {| b_path := rule r;
     b_name := endpoint r;
     b_decorators := contents s (decorators (view_func r));
     b_methods := methods r |}.

Definition concat_str (l : list string) : string :=
  fold_right String.append "" l.

(** The binding of a leaf below groups, for a walk that has already
    accumulated the prefix [pre], the namespace [ns] and the decorators
    [cs]. *)
Definition binding_from (s : list (list klass)) (pre ns : string)
  (cs : list klass) (gl : list group * leaf) : binding :=
  {| b_path := pre +:+ concat_str (map g_prefix (fst gl)) +:+ l_path (snd gl);
     b_name := str_or_none
                 (ns +:+ concat_str (map g_namespace (fst gl)) +:+ l_name (snd gl));
     b_decorators :=
       cs ++ concat (map (fun g => contents s (g_components g)) (fst gl)) ++
       contents s (l_components (snd gl)) ++ [l_handler (snd gl)];
     b_methods := [l_method (snd gl)] |}.

(** The binding of a leaf [L] below the groups [G1, ..., Gk]: the prefixes
    and the path joined, the namespaces and the name joined (none when
    empty), and [G1.components ++ ... ++ Gk.components ++ L.components ++
    [L.handler]]. *)
Definition binding_of (s : list (list klass)) (gl : list group * leaf)
  : binding :=
  {| b_path := concat_str (map g_prefix (fst gl)) +:+ l_path (snd gl);
     b_name := str_or_none
                 (concat_str (map g_namespace (fst gl)) +:+ l_name (snd gl));
     b_decorators :=
       concat (map (fun g => contents s (g_components g)) (fst gl)) ++
       contents s (l_components (snd gl)) ++ [l_handler (snd gl)];
     b_methods := [l_method (snd gl)] |}.

(** Every [components] attribute in the tree is the address of a list
    object among the first [n] of the store. *)
Fixpoint allocated (n : nat) (r : route_like) : bool :=
  match r with
  | Route _ _ _ _ _ components => Nat.ltb components n
  | Include _ routes components _ =>
      Nat.ltb components n &&
      match routes with
      | None => true
      | Some rs => forallb (allocated n) rs
      end
  end.

(** Every [Include] of the tree has a list of routes. *)
Fixpoint has_routes (r : route_like) : bool :=
  match r with
  | Route _ _ _ _ _ _ => true
  | Include _ routes _ _ =>
      match routes with
      | None => false
      | Some rs => forallb has_routes rs
      end
  end.

(** [st'] is [st] with new list objects and new rules, and the new rules
    stand for the bindings [bs]. *)
Definition registers (st st' : state) (bs : list binding) : Prop :=
  exists (ext : list (list klass)) (rules : list url_rule),
    st' = State (store st ++ ext) (url_map st ++ rules) (stdout st) /\
    Forall (fun r => decorators (view_func r) < length (store st ++ ext)) rules /\
    map (resolve (store st ++ ext)) rules = bs.

(** ** Auxiliary notions for the statements *)

(** The component addresses of a leaf and of the groups above it are among
    the first [n] of the store. *)
Definition gl_below (n : nat) (gl : list group * leaf) : Prop :=
  Forall (fun g => g_components g < n) (fst gl) /\ l_components (snd gl) < n.

(** What [add_route] does on a tree whose list objects exist and whose
    groups all have routes: it returns, adds list objects and rules, and
    the new rules stand for the bindings of the leaves, in order. *)
Definition flattens (r : route_like) : Prop :=
  forall (c : loc) (pre ns : string) (st : state) (cs : list klass),
    allocated (length (store st)) r = true ->
    has_routes r = true ->
    store st !! c = Some cs ->
    exists st' : state,
      add_route r c pre ns st = (Ret tt, st') /\
      registers st st' (map (binding_from (store st) pre ns cs) (leaves r)).

(** ** Further classes and routes, used as examples *)

(** A component class that overrides nothing. *)
Definition Plain : klass := Class "Plain" Component [].

(** A handler with a second operation that neither [A] nor [B] overrides. *)
Definition PingHandler : klass :=
  Class "PingHandler" Handler
    [("test", JSONAPIHandler_test); ("ping", fun _ _ => Ret (VStr "pong"))].

(** A handler with an operation named like the attribute of components. *)
Definition ParentHandler : klass :=
  Class "ParentHandler" Handler [("parent", fun _ _ => Ret (VStr "root"))].

(** A handler that defines [__str__]. *)
Definition StrHandler : klass :=
  Class "StrHandler" Handler [("__str__", fun _ _ => Ret (VStr "h"))].

(** A group [G] holding a group [H] holding a leaf [L]. *)
Definition nested_routes : list route_like :=
  [Include "/g"
     (Some [Include "/h"
              (Some [Route "/l" controller JSONAPIHandler "GET" "leaf" 2])
              1 "h."])
     0 "g."].

(** ** Further notions for the properties of the code *)

Definition is_component_b (k : klass) : bool :=
  match cls_base k with
  | Component => true
  | Handler => false
  end.

Definition is_handler_b (k : klass) : bool :=
  match cls_base k with
  | Handler => true
  | Component => false
  end.

(** The list is made of component classes followed by one handler class. *)
Definition chain_ok (items : list klass) : bool :=
  match unsnoc items with
  | None => false
  | Some (ds, c) => forallb is_component_b ds && is_handler_b c
  end.

(** [d[key]] on a returned value, when it is a dictionary holding [key]. *)
Definition dict_get (v : value) (key : string) : option value :=
  match v with
  | VDict items => assoc key items
  | _ => None
  end.

(** Two outcomes agree on a key: both raise the same exception, or both
    return values with the same item at the key. *)
Definition same_item (key : string) (a b : outcome value) : Prop :=
  match a, b with
  | Ret x, Ret y => dict_get x key = dict_get y key
  | Raise e1, Raise e2 => e1 = e2
  | Stuck, Stuck => True
  | _, _ => False
  end.

(** What a decorator like [A] or [B] makes of the outcome of its parent's
    [test]: it sets [key] to [True] in a returned dictionary. *)
Definition flagged (key : string) (parent_result : outcome value) : outcome value :=
  obind parent_result (fun result => setitem result key (VBool true)).

(** [st'] is [st] with more list objects and more rules; nothing that was
    there has changed. *)
Definition extends (st st' : state) : Prop :=
  exists (ext : list (list klass)) (rules : list url_rule),
    st' = State (store st ++ ext) (url_map st ++ rules) (stdout st).

(** The address of the list object bound in the closure of a rule. *)
Definition view_addr (r : url_rule) : loc := decorators (view_func r).

(** [st'] is [st] with new list objects and new rules; the new rules call
    the controllers [ctrls], and their closures refer to list objects that
    are new and all different. *)
Definition wired (st st' : state) (ctrls : list controller_t) : Prop :=
  exists (ext : list (list klass)) (rules : list url_rule),
    st' = State (store st ++ ext) (url_map st ++ rules) (stdout st) /\
    map (fun r => fn (view_func r)) rules = ctrls /\
    Forall (fun r => length (store st) <= view_addr r < length (store st ++ ext))
           rules /\
    NoDup (map view_addr rules).

(** What [add_route] does on a tree one of whose groups has no routes. *)
Definition aborts (r : route_like) : Prop :=
  forall (c : loc) (pre ns : string) (st : state) (cs : list klass),
    allocated (length (store st)) r = true ->
    has_routes r = false ->
    store st !! c = Some cs ->
    exists st' : state,
      add_route r c pre ns st = (Raise TypeError, st') /\ extends st st'.

Definition wires (r : route_like) : Prop :=
  forall (c : loc) (pre ns : string) (st : state) (cs : list klass),
    allocated (length (store st)) r = true ->
    has_routes r = true ->
    store st !! c = Some cs ->
    exists st' : state,
      add_route r c pre ns st = (Ret tt, st') /\
      wired st st' (map (fun gl => l_controller (snd gl)) (leaves r)).


(** ** Basic facts *)

Lemma append_assoc (a b c : string) : (a +:+ b) +:+ c = a +:+ (b +:+ c).
Proof.
  induction a as [|ch a IH]; [reflexivity|].
  change (String ch ((a +:+ b) +:+ c) = String ch (a +:+ (b +:+ c))).
  now rewrite IH.
Qed.

Lemma unsnoc_snoc {A : Type} (l : list A) (x : A) : unsnoc (l ++ [x]) = Some (l, x).
Proof.
  induction l as [|y l IH]; simpl; [reflexivity|].
  now rewrite IH.
Qed.

Lemma unsnoc_nil_inv {A : Type} (l : list A) : unsnoc l = None -> l = [].
Proof.
  destruct l as [|x l]; [reflexivity|]. simpl.
  destruct (unsnoc l) as [[? ?]|]; discriminate.
Qed.

Lemma unsnoc_some_inv {A : Type} (l init : list A) (x : A) :
  unsnoc l = Some (init, x) -> l = init ++ [x].
Proof.
  revert init. induction l as [|y l IH]; intros init H; simpl in H; [discriminate|].
  destruct (unsnoc l) as [[i z]|] eqn:E.
  - inversion H; subst. simpl. f_equal. now apply IH.
  - inversion H; subst. apply unsnoc_nil_inv in E. now subst.
Qed.

Lemma set_store_same (st : state) : set_store st (store st) = st.
Proof. now destruct st. Qed.

Lemma read_some (l : loc) (st : state) (items : list klass) :
  store st !! l = Some items -> read l st = (Ret items, st).
Proof. intros H. unfold read. now rewrite H. Qed.

Lemma list_bool_some (l : loc) (st : state) (items : list klass) :
  store st !! l = Some items ->
  list_bool l st = (Ret (match items with [] => false | _ :: _ => true end), st).
Proof. intros H. unfold list_bool, bind. now rewrite (read_some _ _ _ H). Qed.

Lemma list_pop_snoc (l : loc) (st : state) (init : list klass) (x : klass) :
  store st !! l = Some (init ++ [x]) ->
  list_pop l st = (Ret x, set_store st (<[l := init]> (store st))).
Proof. intros H. unfold list_pop. now rewrite H, unsnoc_snoc. Qed.

Lemma list_pop_empty (l : loc) (st : state) :
  store st !! l = Some [] -> list_pop l st = (Raise IndexError, st).
Proof. intros H. unfold list_pop. now rewrite H. Qed.

(** The loop, run on a list whose items are [rev popped]. *)
Lemma while_decorators_run (l : loc) (popped : list klass) :
  forall (fuel : nat) (h : obj) (st : state),
    store st !! l = Some (rev popped) ->
    length popped < fuel ->
    while_decorators fuel l h st =
      (fst (wrap_popped popped h),
       set_store st (<[l := rev (snd (wrap_popped popped h))]> (store st))).
Proof.
  induction popped as [|d rest IH]; intros fuel h st Hl Hfuel.
  - destruct fuel as [|fuel]; [simpl in Hfuel; lia|].
    simpl. unfold bind. rewrite (list_bool_some _ _ _ Hl). simpl.
    rewrite list_insert_id by exact Hl. now rewrite set_store_same.
  - destruct fuel as [|fuel]; [simpl in Hfuel; lia|].
    simpl in Hl. simpl. unfold bind at 1.
    rewrite (list_bool_some _ _ _ Hl).
    destruct (rev rest ++ [d]) as [|y ys] eqn:E;
      [now destruct (rev rest)|]. rewrite <- E in Hl. clear E y ys.
    unfold bind at 1. rewrite (list_pop_snoc _ _ _ _ Hl).
    unfold bind at 1, lift.
    assert (Hlt : l < length (store st)) by (eapply lookup_lt_Some; eauto).
    destruct (call1 d h) as [h'| e |]; simpl.
    + rewrite IH.
      * simpl. now rewrite list_insert_insert_eq.
      * simpl. now apply list_lookup_insert_eq.
      * simpl in Hfuel. lia.
    + reflexivity.
    + reflexivity.
Qed.

(** Lines 45 to 52 compute [construct] on the items of the list and leave
    the rest in the same list object. *)
Lemma build_handler_run (l : loc) (st : state) (items : list klass) :
  store st !! l = Some items ->
  build_handler l st =
    (fst (construct items), set_store st (<[l := snd (construct items)]> (store st))).
Proof.
  intros Hl. unfold build_handler, construct.
  destruct (unsnoc items) as [[ds c]|] eqn:E.
  - apply unsnoc_some_inv in E. subst items.
    unfold bind at 1. rewrite (list_pop_snoc _ _ _ _ Hl).
    assert (Hlt : l < length (store st)) by (eapply lookup_lt_Some; eauto).
    unfold bind at 1, lift. destruct (call0 c) as [h| e |]; try reflexivity.
    cbv beta iota. unfold bind at 1.
    rewrite (read_some l _ ds) by (simpl; now apply list_lookup_insert_eq).
    rewrite (while_decorators_run l (rev ds)).
    + simpl. now rewrite list_insert_insert_eq.
    + simpl. rewrite rev_involutive. now apply list_lookup_insert_eq.
    + rewrite length_rev. lia.
  - apply unsnoc_nil_inv in E. subst items.
    unfold bind. rewrite (list_pop_empty _ _ Hl). simpl.
    rewrite list_insert_id by exact Hl. now rewrite set_store_same.
Qed.

Lemma wrap_popped_components (popped : list klass) :
  forall h : obj,
    Forall is_component popped ->
    wrap_popped popped h = (Ret (fold_left (fun acc d => Wrap d acc) popped h), []).
Proof.
  induction popped as [|d rest IH]; intros h Hall; simpl; [reflexivity|].
  inversion Hall as [|? ? Hd Hrest]; subst.
  unfold call1. rewrite Hd. now apply IH.
Qed.

Lemma construct_nest (ds : list klass) (c : klass) :
  Forall is_component ds -> is_handler c ->
  construct (ds ++ [c]) = (Ret (nest ds c), []).
Proof.
  intros Hds Hc. unfold construct. rewrite unsnoc_snoc.
  unfold call0. rewrite Hc.
  rewrite wrap_popped_components by (now apply Forall_rev).
  simpl. unfold nest. f_equal.
  rewrite <- fold_left_rev_right. now rewrite rev_involutive.
Qed.

(** ** dispatch_request *)

Lemma dispatch_request_run (f : controller_t) (l : loc) (uri_args : kwargs)
  (st : state) (items : list klass) :
  store st !! l = Some items ->
  dispatch_request f l uri_args st =
    match fst (construct items) with
    | Ret h =>
        call_controller f h uri_args
          (set_store st (<[l := snd (construct items)]> (store st)))
    | Raise e => (Raise e, set_store st (<[l := snd (construct items)]> (store st)))
    | Stuck => (Stuck, set_store st (<[l := snd (construct items)]> (store st)))
    end.
Proof.
  intros Hl. unfold dispatch_request, bind.
  rewrite (build_handler_run _ _ _ Hl).
  now destruct (fst (construct items)).
Qed.

Lemma invoke_wrap_method (d : klass) (p : obj) (op : string) (m : method)
  (kw : kwargs) :
  op <> "parent" ->
  assoc op (cls_methods d) = Some m ->
  invoke (Wrap d p) op kw = m (invoke p) kw.
Proof.
  intros Hop Hm. unfold invoke at 1. simpl.
  apply String.eqb_neq in Hop. rewrite Hop, Hm. reflexivity.
Qed.

Lemma invoke_nest_transforms (op : string) (c : klass) (kw : kwargs)
  (ds : list klass) (ts : list (value -> outcome value)) :
  Forall2 (transforms op) ds ts ->
  invoke (nest ds c) op kw =
    fold_right (fun t acc => obind acc t) (invoke (Inst c) op kw) ts.
Proof.
  induction 1 as [|d t ds ts [Hop [m [Hm Hbody]]] _ IH]; [reflexivity|].
  simpl. rewrite <- IH.
  change (nest (d :: ds) c) with (Wrap d (nest ds c)).
  rewrite (invoke_wrap_method _ _ _ _ _ Hop Hm). apply Hbody.
Qed.

Lemma inherited_reserved (b : base) (name : string) :
  inherited b name = true -> reserved name = true.
Proof.
  unfold inherited. rewrite existsb_exists. intros (x & Hin & Heq).
  apply String.eqb_eq in Heq. subst x.
  destruct b; simpl in Hin;
    repeat (destruct Hin as [<-|Hin]; [reflexivity|]); contradiction.
Qed.

Lemma not_reserved_not_inherited (b : base) (name : string) :
  reserved name = false -> inherited b name = false.
Proof.
  intros H. destruct (inherited b name) eqn:E; [|reflexivity].
  apply inherited_reserved in E. congruence.
Qed.

Lemma defines_false_inv (d : klass) (name : string) :
  defines d name = false ->
  String.eqb name "parent" = false /\ reserved name = false /\
  assoc name (cls_methods d) = None.
Proof.
  unfold defines. intros H.
  apply orb_false_elim in H as [H Hm]. apply orb_false_elim in H as [Hp Hr].
  repeat split; try assumption. now destruct (assoc name (cls_methods d)).
Qed.

Lemma forwards_defines (d : klass) (name : string) :
  forwards d name = true -> defines d name = false.
Proof.
  unfold forwards. rewrite andb_true_iff, negb_true_iff. now intros [_ H].
Qed.

Lemma getattr_wrap_forward (d : klass) (p : obj) (name : string) :
  defines d name = false ->
  getattr (Wrap d p) name = getattr p name.
Proof.
  intros H. destruct (defines_false_inv _ _ H) as (Hp & Hr & Hm).
  simpl. now rewrite Hp, Hm, (not_reserved_not_inherited _ _ Hr), Hr.
Qed.

Lemma getattr_nest_forward (name : string) (c : klass) (ds : list klass) :
  Forall (fun d => defines d name = false) ds ->
  getattr (nest ds c) name = getattr (Inst c) name.
Proof.
  induction 1 as [|d ds Hd _ IH]; [reflexivity|].
  change (nest (d :: ds) c) with (Wrap d (nest ds c)).
  now rewrite (getattr_wrap_forward _ _ _ Hd).
Qed.

(** C4.  For a list [[D1; ...; Dn; C]] of component classes followed by a
    handler class, [dispatch_request] instantiates [C] with no argument,
    wraps it with [Dn], ..., [D1] in that order, and hands
    [D1(D2(...Dn(C())...))] to the controller: the first class listed is the
    outermost wrapper.  An operation that every [Di] overrides with a
    transformation [ti] yields [t1 (t2 (... (tn r)))] for the result [r] of
    the concrete handler: [ti] is applied after every [tj] with [j > i]. *)
Theorem dispatch_request_builds_chain (f : controller_t) (l : loc)
  (uri_args : kwargs) (st : state) (ds : list klass) (c : klass) :
  store st !! l = Some (ds ++ [c]) ->
  Forall is_component ds ->
  is_handler c ->
  call0 c = Ret (Inst c) /\
  build_handler l st =
    (Ret (nest ds c), set_store st (<[l := []]> (store st))) /\
  dispatch_request f l uri_args st =
    call_controller f (nest ds c) uri_args
      (set_store st (<[l := []]> (store st))) /\
  forall (op : string) (ts : list (value -> outcome value)) (kw : kwargs),
    Forall2 (transforms op) ds ts ->
    invoke (nest ds c) op kw =
      fold_right (fun t acc => obind acc t) (invoke (Inst c) op kw) ts.
Proof.
  intros Hl Hds Hc. repeat split.
  - unfold call0. now rewrite Hc.
  - rewrite (build_handler_run _ _ _ Hl). now rewrite (construct_nest _ _ Hds Hc).
  - rewrite (dispatch_request_run _ _ _ _ _ Hl).
    now rewrite (construct_nest _ _ Hds Hc).
  - intros op ts kw. apply invoke_nest_transforms.
Qed.

Lemma A_transforms : transforms "test" A (fun r => setitem r "A" (VBool true)).
Proof. split; [discriminate|]. exists A_test. now split. Qed.

Lemma B_transforms : transforms "test" B (fun r => setitem r "B" (VBool true)).
Proof. split; [discriminate|]. exists B_test. now split. Qed.

Lemma dispatch_request_builds_chain_witness :
  let st := State [[A; B; JSONAPIHandler]] [] [] in
  build_handler 0 st = (Ret (Wrap A (Wrap B (Inst JSONAPIHandler))), State [[]] [] []) /\
  invoke (nest [A; B] JSONAPIHandler) "test" [] =
    Ret (VDict [("hello", VStr "world"); ("B", VBool true); ("A", VBool true)]).
Proof.
  intros st.
  destruct (dispatch_request_builds_chain controller 0 [] st [A; B] JSONAPIHandler)
    as (_ & Hbuild & _ & Hops).
  - reflexivity.
  - repeat constructor.
  - reflexivity.
  - split; [exact Hbuild|].
    rewrite (Hops "test" [fun r => setitem r "A" (VBool true);
                          fun r => setitem r "B" (VBool true)] []).
    + reflexivity.
    + constructor; [apply A_transforms|].
      constructor; [apply B_transforms | constructor].
Defined.

Lemma getattr_wraps_forward (name : string) (o : obj) (ds : list klass) :
  Forall (fun d => defines d name = false) ds ->
  getattr (fold_right Wrap o ds) name = getattr o name.
Proof.
  induction 1 as [|d ds Hd _ IH]; [reflexivity|].
  simpl fold_right. now rewrite (getattr_wrap_forward _ _ _ Hd).
Qed.

Lemma nest_app (pre post : list klass) (c : klass) :
  nest (pre ++ post) c = fold_right Wrap (nest post c) pre.
Proof. unfold nest. now rewrite foldr_app. Qed.

Lemma Forall_forwards_defines (name : string) (ds : list klass) :
  Forall (fun d => forwards d name = true) ds ->
  Forall (fun d => defines d name = false) ds.
Proof.
  intros H. eapply Forall_impl; [exact H|]. intros d. apply forwards_defines.
Qed.

(** C9, as amended.  An operation name that normal lookup does not find on
    the instances of the decorators of the chain (it is no method of a
    decorator's class, not the attribute [parent], and not of the form
    [__x__]) is forwarded by the [__getattr__] of every component to the
    wrapped parent, down to the concrete handler: looking it up on the
    object that [dispatch_request] builds gives what looking it up on any
    inner part of the chain gives, and calling it yields exactly the
    concrete handler's result, which is the handler's own method run on the
    handler.  The classes add ordinary operations only. *)
Theorem passthrough_to_concrete_handler (l : loc) (st : state)
  (ds : list klass) (c : klass) (name : string) (kw : kwargs) :
  store st !! l = Some (ds ++ [c]) ->
  Forall is_component ds ->
  is_handler c ->
  Forall (fun d => forwards d name = true) ds ->
  ordinary c = true ->
  exists o : obj,
    fst (build_handler l st) = Ret o /\
    (forall pre post : list klass,
        ds = pre ++ post -> getattr o name = getattr (nest post c) name) /\
    getattr o name = getattr (Inst c) name /\
    invoke o name kw = invoke (Inst c) name kw /\
    (forall m : method,
        assoc name (cls_methods c) = Some m ->
        invoke o name kw = m (fun _ _ => Raise AttributeError) kw).
Proof.
  intros Hl Hds Hc Hname _. apply Forall_forwards_defines in Hname.
  exists (nest ds c).
  assert (Hget : getattr (nest ds c) name = getattr (Inst c) name)
    by now apply getattr_nest_forward.
  split; [|split; [|split; [|split]]].
  - rewrite (build_handler_run _ _ _ Hl). now rewrite (construct_nest _ _ Hds Hc).
  - intros pre post ->. rewrite nest_app. apply getattr_wraps_forward.
    apply Forall_app in Hname. apply Hname.
  - exact Hget.
  - unfold invoke. now rewrite Hget.
  - intros m Hm. unfold invoke. rewrite Hget. simpl. now rewrite Hm.
Qed.

Lemma passthrough_to_concrete_handler_witness :
  exists o : obj,
    fst (build_handler 0 (State [[A; Plain; B; PingHandler]] [] [])) = Ret o /\
    getattr o "ping" = getattr (nest [B] PingHandler) "ping" /\
    getattr o "ping" = getattr (Inst PingHandler) "ping" /\
    invoke o "ping" [] = invoke (Inst PingHandler) "ping" [] /\
    invoke o "ping" [] = Ret (VStr "pong").
Proof.
  destruct (passthrough_to_concrete_handler 0
              (State [[A; Plain; B; PingHandler]] [] []) [A; Plain; B]
              PingHandler "ping" [])
    as (o & Hbuild & Hparts & Hget & Hinv & Hpin).
  - reflexivity.
  - repeat constructor.
  - reflexivity.
  - repeat constructor.
  - reflexivity.
  - exists o. split; [exact Hbuild|]. split; [|split; [exact Hget|split; [exact Hinv|]]].
    + now apply (Hparts [A; Plain] [B]).
    + now apply (Hpin (fun _ _ => Ret (VStr "pong"))).
Defined.

(** C9, as stated, fails.  [Plain] overrides no operation, yet a call of
    [parent] on a [Plain] wrapper does not reach the handler's operation of
    that name: normal lookup finds the attribute [parent] of the wrapper,
    which is the wrapped object and cannot be called.  In the same way
    [__str__] is found on the wrapper itself, where [object] provides it,
    and not on the handler that defines it. *)
Lemma passthrough_not_for_every_name :
  assoc "parent" (cls_methods Plain) = None /\
  invoke (Inst ParentHandler) "parent" [] = Ret (VStr "root") /\
  invoke (Wrap Plain (Inst ParentHandler)) "parent" [] = Raise TypeError /\
  invoke (Wrap Plain (Inst ParentHandler)) "parent" [] <>
    invoke (Inst ParentHandler) "parent" [] /\
  assoc "__str__" (cls_methods Plain) = None /\
  getattr (Wrap Plain (Inst StrHandler)) "__str__" = Ret (Inherited "__str__") /\
  getattr (Wrap Plain (Inst StrHandler)) "__str__" <>
    getattr (Inst StrHandler) "__str__".
Proof. repeat split; discriminate. Qed.

Lemma lookup_snoc_last {T : Type} (l : list T) (x : T) :
  (l ++ [x]) !! length l = Some x.
Proof. now apply list_lookup_middle. Qed.

Lemma lookup_snoc_old {T : Type} (l : list T) (x y : T) (i : nat) :
  l !! i = Some y -> (l ++ [x]) !! i = Some y.
Proof. intros H. now apply lookup_app_l_Some. Qed.

Lemma list_add_run (a b : loc) (st : state) (xs ys : list klass) :
  store st !! a = Some xs ->
  store st !! b = Some ys ->
  list_add a b st =
    (Ret (length (store st)), set_store st (store st ++ [xs ++ ys])).
Proof.
  intros Ha Hb. unfold list_add, bind.
  now rewrite (read_some _ _ _ Ha), (read_some _ _ _ Hb).
Qed.

Lemma add_route_Route (path : string) (ctrl : controller_t) (h : klass)
  (meth name : string) (cl comps : loc) (prefix ns : string) :
  add_route (Route path ctrl h meth name cl) comps prefix ns =
    (inherited <- list_add comps cl ;;
     concrete <- alloc [h] ;;
     components <- list_add inherited concrete ;;
     add_url_rule (format2 prefix path) (str_or_none (format2 ns name))
       (Partial ctrl components) [meth]).
Proof. reflexivity. Qed.

Lemma add_route_Include (r_prefix : string) (r_routes : option (list route_like))
  (r_components : loc) (r_namespace : string) (comps : loc) (prefix ns : string) :
  add_route (Include r_prefix r_routes r_components r_namespace) comps prefix ns =
    (components <- list_add comps r_components ;;
     add_routes (r_routes) (Some components)
       (format2 prefix r_prefix) (format2 ns r_namespace)).
Proof. reflexivity. Qed.

(** Registering a leaf: three new list objects and one new rule, whose
    closure refers to the last of the three. *)
Lemma add_route_leaf_run (path : string) (ctrl : controller_t) (h : klass)
  (meth name : string) (cl comps : loc) (prefix ns : string) (st : state)
  (inherited own : list klass) :
  store st !! comps = Some inherited ->
  store st !! cl = Some own ->
  add_route (Route path ctrl h meth name cl) comps prefix ns st =
    (Ret tt,
     {| store := store st ++ [inherited ++ own; [h]; (inherited ++ own) ++ [h]];
        url_map := url_map st ++
          [UrlRule (format2 prefix path) (str_or_none (format2 ns name))
             (Partial ctrl (S (S (length (store st))))) [meth]];
        stdout := stdout st |}).
Proof.
  intros Hc Hl. rewrite add_route_Route. unfold bind at 1.
  rewrite (list_add_run _ _ _ _ _ Hc Hl).
  unfold bind at 1, alloc at 1. cbv beta iota. unfold bind at 1.
  rewrite (list_add_run _ _ _ (inherited ++ own) [h]).
  - unfold add_url_rule, set_store. cbn [store url_map stdout].
    rewrite 2 length_app. cbn [length].
    replace (length (store st) + 1 + 1) with (S (S (length (store st)))) by lia.
    rewrite <- app_assoc, <- app_assoc. reflexivity.
  - cbn [store set_store]. apply lookup_snoc_old, lookup_snoc_last.
  - cbn [store set_store]. apply lookup_snoc_last.
Qed.



(** C1 (the code departs from it).  [dispatch_request] does change the list
    object it is given: called on a list holding [[A; B; JSONAPIHandler]] it
    returns the controller's result and leaves that same object empty, so
    the list is not what it was before the call. *)
Theorem dispatch_request_empties_its_argument :
  let st := State [[A; B; JSONAPIHandler]] [] [] in
  store st !! 0 = Some [A; B; JSONAPIHandler] /\
  fst (dispatch_request controller 0 [("id", "1")] st) = Ret (VStr "hello, world!") /\
  store (snd (dispatch_request controller 0 [("id", "1")] st)) !! 0 = Some [].
Proof. repeat split. Qed.

Lemma wrap_popped_app (xs ys : list klass) :
  forall h : obj,
    Forall is_component xs ->
    wrap_popped (xs ++ ys) h =
      wrap_popped ys (fold_left (fun acc d => Wrap d acc) xs h).
Proof.
  induction xs as [|d xs IH]; intros h Hall; [reflexivity|].
  inversion Hall as [|? ? Hd Hxs]; subst. simpl.
  unfold call1. rewrite Hd. now apply IH.
Qed.

Lemma construct_raises_at (ds1 ds2 : list klass) (d c : klass) (e : exn) :
  Forall is_component ds2 ->
  is_handler c ->
  call1 d (nest ds2 c) = Raise e ->
  construct (ds1 ++ d :: ds2 ++ [c]) = (Raise e, ds1).
Proof.
  intros Hds Hc He. unfold construct.
  replace (ds1 ++ d :: ds2 ++ [c]) with ((ds1 ++ d :: ds2) ++ [c])
    by (now rewrite <- app_assoc).
  rewrite unsnoc_snoc. unfold call0. rewrite Hc.
  rewrite rev_app_distr. simpl rev. rewrite <- app_assoc.
  rewrite wrap_popped_app by (now apply Forall_rev).
  rewrite <- fold_left_rev_right, rev_involutive.
  simpl. fold (nest ds2 c). rewrite He. simpl. now rewrite rev_involutive.
Qed.

(** C10, as amended.  The code has no exception classes of its own.  On an
    empty list [dispatch_request] fails with the [IndexError] of [pop]; when
    a constructor call raises, be it the call of the last class without
    argument or the call of an earlier class on the object built so far,
    that exception reaches the caller as it is.  In each case the call ends
    with the exception and returns no result. *)
Theorem dispatch_request_failures_propagate (f : controller_t) (l : loc)
  (uri_args : kwargs) (st : state) (items : list klass) :
  store st !! l = Some items ->
  (items = [] -> dispatch_request f l uri_args st = (Raise IndexError, st)) /\
  (forall ds c e,
      items = ds ++ [c] ->
      call0 c = Raise e ->
      fst (dispatch_request f l uri_args st) = Raise e) /\
  (forall ds1 d ds2 c e,
      items = ds1 ++ d :: ds2 ++ [c] ->
      Forall is_component ds2 ->
      is_handler c ->
      call1 d (nest ds2 c) = Raise e ->
      fst (dispatch_request f l uri_args st) = Raise e).
Proof.
  intros Hl. split; [|split].
  - intros ->. rewrite (dispatch_request_run _ _ _ _ _ Hl). simpl.
    rewrite list_insert_id by exact Hl. now rewrite set_store_same.
  - intros ds c e -> He. rewrite (dispatch_request_run _ _ _ _ _ Hl).
    unfold construct. rewrite unsnoc_snoc, He. reflexivity.
  - intros ds1 d ds2 c e -> Hds Hc He.
    rewrite (dispatch_request_run _ _ _ _ _ Hl).
    now rewrite (construct_raises_at _ _ _ _ _ Hds Hc He).
Qed.

Lemma dispatch_request_failures_propagate_witness :
  dispatch_request controller 0 [] (State [[]] [] []) =
    (Raise IndexError, State [[]] [] []) /\
  fst (dispatch_request controller 0 [] (State [[B; A]] [] [])) = Raise TypeError /\
  fst (dispatch_request controller 1 []
         (State [[]; [A; JSONAPIHandler; B; JSONAPIHandler]] [] [])) = Raise TypeError.
Proof.
  split; [|split].
  - destruct (dispatch_request_failures_propagate controller 0 []
                (State [[]] [] []) [] eq_refl) as (H & _ & _).
    now apply H.
  - destruct (dispatch_request_failures_propagate controller 0 []
                (State [[B; A]] [] []) [B; A] eq_refl) as (_ & H & _).
    apply (H [B] A TypeError); reflexivity.
  - destruct (dispatch_request_failures_propagate controller 1 []
                (State [[]; [A; JSONAPIHandler; B; JSONAPIHandler]] [] [])
                [A; JSONAPIHandler; B; JSONAPIHandler] eq_refl) as (_ & _ & H).
    apply (H [A] JSONAPIHandler [B] JSONAPIHandler TypeError);
      [reflexivity | repeat constructor | reflexivity | reflexivity].
Defined.

(** C10, as stated, fails: on an empty list the exception is [IndexError],
    not a [ConfigurationError], and the [TypeError] of a failing constructor
    call is not turned into a [ConstructionError]. *)
Lemma dispatch_request_no_custom_errors :
  fst (dispatch_request controller 0 [] (State [[]] [] [])) = Raise IndexError /\
  fst (dispatch_request controller 0 [] (State [[]] [] [])) <> Raise ConfigurationError /\
  fst (dispatch_request controller 0 [] (State [[A]] [] [])) = Raise TypeError /\
  fst (dispatch_request controller 0 [] (State [[A]] [] [])) <> Raise ConstructionError.
Proof. repeat split; discriminate. Qed.

(** ** Flattening the route tree *)

(** Induction on a route tree, with the hypothesis for every route of a
    group. *)
Section route_like_induction.
Variable P : route_like -> Prop.
Hypothesis P_Route :
  forall path controller handler method name components,
    P (Route path controller handler method name components).
Hypothesis P_Include :
  forall prefix routes components namespace,
    match routes with
    | None => True
    | Some rs => Forall P rs
    end ->
    P (Include prefix routes components namespace).

Lemma route_like_induction : forall r : route_like, P r.
Proof.
  fix IH 1. intros [path c h m n cs | prefix [rs|] cs ns].
  - apply P_Route.
  - apply P_Include. induction rs as [|r rs IHrs]; constructor.
    + apply IH.
    + apply IHrs.
  - now apply P_Include.
Qed.
End route_like_induction.

Lemma allocated_mono (n m : nat) (r : route_like) :
  n <= m -> allocated n r = true -> allocated m r = true.
Proof.
  intros Hnm. induction r as [path c h me na cs | prefix rs cs ns IH]
    using route_like_induction; simpl.
  - rewrite !Nat.ltb_lt. lia.
  - rewrite !andb_true_iff, !Nat.ltb_lt. intros [Hcs Hrs]. split; [lia|].
    destruct rs as [rs|]; [|reflexivity].
    rewrite forallb_forall in *. intros r Hr.
    rewrite Forall_forall in IH. apply IH; [|now apply Hrs].
    now apply list_elem_of_In.
Qed.

Lemma leaves_below (n : nat) (r : route_like) :
  allocated n r = true -> Forall (gl_below n) (leaves r).
Proof.
  induction r as [path c h me na cs | prefix rs cs ns IH]
    using route_like_induction; simpl.
  - rewrite Nat.ltb_lt. intros Hcs. repeat constructor. exact Hcs.
  - rewrite andb_true_iff, Nat.ltb_lt. intros [Hcs Hrs].
    destruct rs as [rs|]; [|constructor].
    apply Forall_map. induction rs as [|r rs IHrs]; [constructor|].
    simpl in Hrs. apply andb_true_iff in Hrs as [Hr Hrs].
    inversion IH as [|? ? IHr IHrest]; subst. simpl.
    apply Forall_app. split.
    + specialize (IHr Hr). eapply Forall_impl; [exact IHr|].
      intros [gs lf] [Hgs Hlf]. split; simpl; [now constructor | exact Hlf].
    + now apply IHrs.
Qed.

Lemma contents_lookup (s : list (list klass)) (l : loc) (xs : list klass) :
  s !! l = Some xs -> contents s l = xs.
Proof. intros H. unfold contents. now rewrite H. Qed.

Lemma contents_app (s ext : list (list klass)) (l : loc) :
  l < length s -> contents (s ++ ext) l = contents s l.
Proof. intros H. unfold contents. now rewrite lookup_app_l. Qed.

Lemma binding_from_app (s ext : list (list klass)) (pre ns : string)
  (cs : list klass) (gl : list group * leaf) :
  gl_below (length s) gl ->
  binding_from (s ++ ext) pre ns cs gl = binding_from s pre ns cs gl.
Proof.
  intros [Hgs Hlf]. unfold binding_from.
  replace (map (fun g => contents (s ++ ext) (g_components g)) (fst gl))
    with (map (fun g => contents s (g_components g)) (fst gl)).
  - now rewrite contents_app.
  - apply map_ext_Forall. eapply Forall_impl; [exact Hgs|].
    intros g Hg. simpl. symmetry. now apply contents_app.
Qed.

Lemma binding_from_mono (n : nat) (s ext : list (list klass)) (pre ns : string)
  (cs : list klass) (gls : list (list group * leaf)) :
  n <= length s ->
  Forall (gl_below n) gls ->
  map (binding_from (s ++ ext) pre ns cs) gls = map (binding_from s pre ns cs) gls.
Proof.
  intros Hn Hall. apply map_ext_Forall. eapply Forall_impl; [exact Hall|].
  intros gl [Hgs Hlf]. apply binding_from_app. split.
  - eapply Forall_impl; [exact Hgs|]. simpl. intros. lia.
  - lia.
Qed.

Lemma binding_from_group (s : list (list klass)) (pre ns : string)
  (cs : list klass) (g : group) (gl : list group * leaf) :
  binding_from s pre ns cs (g :: fst gl, snd gl) =
    binding_from s (format2 pre (g_prefix g)) (format2 ns (g_namespace g))
      (cs ++ contents s (g_components g)) gl.
Proof.
  unfold binding_from, format2. simpl.
  change (String.append (g_prefix g) (concat_str (map g_prefix gl.1)))
    with (g_prefix g +:+ concat_str (map g_prefix gl.1)).
  change (String.append (g_namespace g) (concat_str (map g_namespace gl.1)))
    with (g_namespace g +:+ concat_str (map g_namespace gl.1)).
  rewrite !append_assoc. now rewrite <- !(app_assoc (A := klass)).
Qed.

Lemma binding_from_root (s : list (list klass)) (gl : list group * leaf) :
  binding_from s "" "" [] gl = binding_of s gl.
Proof. reflexivity. Qed.

Lemma registers_refl (st : state) : registers st st [].
Proof.
  exists [], []. rewrite !app_nil_r. repeat split.
  - now destruct st.
  - constructor.
Qed.

Lemma registers_trans (st1 st2 st3 : state) (bs1 bs2 : list binding) :
  registers st1 st2 bs1 -> registers st2 st3 bs2 ->
  registers st1 st3 (bs1 ++ bs2).
Proof.
  intros (e1 & r1 & -> & Hb1 & <-) (e2 & r2 & -> & Hb2 & <-).
  cbn [store url_map stdout] in *.
  exists (e1 ++ e2), (r1 ++ r2). rewrite !app_assoc. repeat split.
  - apply Forall_app. split; [|exact Hb2].
    eapply Forall_impl; [exact Hb1|]. simpl. intros r Hr.
    rewrite length_app. lia.
  - rewrite map_app. f_equal.
    apply map_ext_Forall. eapply Forall_impl; [exact Hb1|].
    simpl. intros r Hr. unfold resolve. f_equal. now apply contents_app.
Qed.

Lemma registers_alloc (st : state) (xs : list klass) :
  registers st (set_store st (store st ++ [xs])) [].
Proof.
  exists [xs], []. rewrite app_nil_r. repeat split. constructor.
Qed.

Lemma registers_lookup (st st' : state) (bs : list binding) (l : loc)
  (xs : list klass) :
  registers st st' bs -> store st !! l = Some xs -> store st' !! l = Some xs.
Proof.
  intros (e & r & -> & _ & _) H. simpl. now apply lookup_app_l_Some.
Qed.

Lemma registers_length (st st' : state) (bs : list binding) :
  registers st st' bs -> length (store st) <= length (store st').
Proof. intros (e & r & -> & _ & _). simpl. rewrite length_app. lia. Qed.

Lemma registers_store (st st' : state) (bs : list binding) :
  registers st st' bs -> exists ext, store st' = store st ++ ext.
Proof. intros (e & r & -> & _ & _). now exists e. Qed.

Lemma or_empty_some_run (l : loc) (st : state) (xs : list klass) :
  store st !! l = Some xs ->
  exists (l' : loc) (st' : state),
    or_empty (Some l) st = (Ret l', st') /\
    registers st st' [] /\
    store st' !! l' = Some xs.
Proof.
  intros Hl. unfold or_empty, bind. rewrite (list_bool_some _ _ _ Hl).
  destruct xs as [|x xs].
  - exists (length (store st)), (set_store st (store st ++ [[]])).
    repeat split; [apply registers_alloc | apply lookup_snoc_last].
  - exists l, st. repeat split; [apply registers_refl | exact Hl].
Qed.

Lemma or_empty_none_run (st : state) :
  or_empty None st =
    (Ret (length (store st)), set_store st (store st ++ [[]])).
Proof. reflexivity. Qed.

Lemma forallb_allocated_mono (n m : nat) (rs : list route_like) :
  n <= m ->
  forallb (allocated n) rs = true -> forallb (allocated m) rs = true.
Proof.
  intros Hnm. rewrite !forallb_forall. intros H r Hr.
  eapply allocated_mono; [exact Hnm | now apply H].
Qed.

Lemma flat_map_leaves_below (n : nat) (rs : list route_like) :
  forallb (allocated n) rs = true ->
  Forall (gl_below n) (flat_map leaves rs).
Proof.
  induction rs as [|r rs IH]; simpl; [constructor|].
  rewrite andb_true_iff. intros [Hr Hrs].
  apply Forall_app. split; [now apply leaves_below | now apply IH].
Qed.

Lemma for_each_registers (c : loc) (pre ns : string) (rs : list route_like) :
  Forall flattens rs ->
  forall (st : state) (cs : list klass),
    forallb (allocated (length (store st))) rs = true ->
    forallb has_routes rs = true ->
    store st !! c = Some cs ->
    exists st' : state,
      for_each (fun route => add_route route c pre ns) rs st = (Ret tt, st') /\
      registers st st'
        (map (binding_from (store st) pre ns cs) (flat_map leaves rs)).
Proof.
  induction 1 as [|r rs Hr _ IH]; intros st cs Hal Hro Hc.
  - exists st. split; [reflexivity | apply registers_refl].
  - simpl in Hal, Hro.
    apply andb_true_iff in Hal as [Hal_r Hal_rs].
    apply andb_true_iff in Hro as [Hro_r Hro_rs].
    destruct (Hr c pre ns st cs Hal_r Hro_r Hc) as (st1 & Hrun1 & Hreg1).
    destruct (registers_store _ _ _ Hreg1) as [ext Hext].
    destruct (IH st1 cs) as (st2 & Hrun2 & Hreg2).
    + eapply forallb_allocated_mono; [|exact Hal_rs].
      eapply registers_length; exact Hreg1.
    + exact Hro_rs.
    + eapply registers_lookup; eauto.
    + exists st2. split.
      * change (for_each (fun route => add_route route c pre ns) (r :: rs))
          with (add_route r c pre ns ;;
                for_each (fun route => add_route route c pre ns) rs).
        unfold bind. now rewrite Hrun1.
      * simpl flat_map. rewrite map_app.
        eapply registers_trans; [exact Hreg1|].
        rewrite Hext in Hreg2.
        rewrite (binding_from_mono (length (store st))) in Hreg2;
          [exact Hreg2 | lia | now apply flat_map_leaves_below].
Qed.

Lemma add_route_registers (r : route_like) : flattens r.
Proof.
  induction r as [path ctrl h me na cl | prefix rs cl nsp IH]
    using route_like_induction;
    intros c pre ns st cs Hal Hro Hc.
  - simpl in Hal. apply Nat.ltb_lt in Hal.
    destruct (lookup_lt_is_Some_2 _ _ Hal) as [own Hown].
    eexists. split; [apply (add_route_leaf_run _ _ _ _ _ _ _ _ _ _ _ _ Hc Hown)|].
    exists [cs ++ own; [h]; (cs ++ own) ++ [h]],
      [UrlRule (format2 pre path) (str_or_none (format2 ns na))
         (Partial ctrl (S (S (length (store st))))) [me]].
    split; [reflexivity|]. split.
    + constructor; [|constructor]. simpl. rewrite length_app. simpl. lia.
    + simpl. unfold resolve, binding_from. simpl.
      rewrite (contents_lookup _ _ _ Hown).
      rewrite (contents_lookup _ _ ((cs ++ own) ++ [h])).
      * now rewrite <- (app_assoc (A := klass)).
      * change (store st ++ [cs ++ own; [h]; (cs ++ own) ++ [h]])
          with (store st ++ [cs ++ own; [h]] ++ [(cs ++ own) ++ [h]]).
        rewrite (app_assoc (A := list klass)).
        replace (S (S (length (store st))))
          with (length (store st ++ [cs ++ own; [h]]))
          by (rewrite length_app; simpl; lia).
        apply lookup_snoc_last.
  - simpl in Hal, Hro. apply andb_true_iff in Hal as [Hcl Hal].
    apply Nat.ltb_lt in Hcl.
    destruct rs as [rs|]; [|discriminate].
    destruct (lookup_lt_is_Some_2 _ _ Hcl) as [own Hown].
    rewrite add_route_Include.
    pose proof (list_add_run _ _ _ _ _ Hc Hown) as Hadd.
    set (st1 := set_store st (store st ++ [cs ++ own])) in *.
    assert (Hreg1 : registers st st1 []) by apply registers_alloc.
    assert (Hn : store st1 !! length (store st) = Some (cs ++ own))
      by apply lookup_snoc_last.
    destruct (or_empty_some_run _ _ _ Hn) as (l' & st2 & Hor & Hreg2 & Hl').
    pose proof (registers_trans _ _ _ _ _ Hreg1 Hreg2) as Hreg12.
    destruct (registers_store _ _ _ Hreg12) as [ext Hext].
    destruct (for_each_registers l' (format2 pre prefix) (format2 ns nsp) rs IH
                st2 (cs ++ own)) as (st3 & Hrun & Hreg3).
    + eapply forallb_allocated_mono; [|exact Hal].
      eapply registers_length; exact Hreg12.
    + exact Hro.
    + exact Hl'.
    + exists st3. split.
      * unfold bind at 1. rewrite Hadd. unfold add_routes, add_routes_with.
        unfold bind at 1. now rewrite Hor.
      * pose proof (registers_trans _ _ _ _ _ Hreg12 Hreg3) as Hreg.
        simpl app in Hreg. rewrite Hext in Hreg.
        rewrite (binding_from_mono (length (store st))) in Hreg;
          [| lia | now apply flat_map_leaves_below].
        simpl leaves. rewrite map_map.
        erewrite map_ext; [exact Hreg|].
        intros gl. simpl.
        rewrite (binding_from_group _ _ _ _ (Group prefix cl nsp) gl).
        simpl. now rewrite (contents_lookup _ _ _ Hown).
Qed.

(** [add_routes(routes)] as the script calls it. *)
Lemma add_routes_registers (routes : list route_like) (st : state) :
  forallb (allocated (length (store st))) routes = true ->
  forallb has_routes routes = true ->
  exists st' : state,
    add_routes (Some routes) None "" "" st = (Ret tt, st') /\
    registers st st' (map (binding_of (store st)) (flat_map leaves routes)).
Proof.
  intros Hal Hro.
  set (st1 := set_store st (store st ++ [[]])).
  assert (Hreg1 : registers st st1 []) by apply registers_alloc.
  assert (Hn : store st1 !! length (store st) = Some [])
    by apply lookup_snoc_last.
  destruct (for_each_registers (length (store st)) "" "" routes) with
    (st := st1) (cs := @nil klass) as (st2 & Hrun & Hreg2).
  - apply Forall_forall. intros r _. apply add_route_registers.
  - eapply forallb_allocated_mono; [|exact Hal].
    eapply registers_length; exact Hreg1.
  - exact Hro.
  - exact Hn.
  - exists st2. split.
    + unfold add_routes, add_routes_with, bind.
      rewrite or_empty_none_run. exact Hrun.
    + pose proof (registers_trans _ _ _ _ _ Hreg1 Hreg2) as Hreg.
      simpl app in Hreg. unfold st1 in Hreg. cbn [store set_store] in Hreg.
      rewrite (binding_from_mono (length (store st))) in Hreg;
        [| lia | now apply flat_map_leaves_below].
      erewrite map_ext; [exact Hreg|]. intros gl. reflexivity.
Qed.

(** C5.  Registering a forest of routes whose groups all have routes makes
    one rule per leaf, in depth-first order, and the list object bound in
    the closure of the rule of a leaf [L] below the groups [G1, ..., Gk]
    (outermost first) holds
    [G1.components ++ ... ++ Gk.components ++ L.components ++ [L.handler]]:
    ancestors before descendants before the leaf's own list, the concrete
    handler class last. *)
Theorem add_routes_decorator_lists (routes : list route_like) (st : state) :
  forallb (allocated (length (store st))) routes = true ->
  forallb has_routes routes = true ->
  exists (ext : list (list klass)) (rules : list url_rule),
    add_routes (Some routes) None "" "" st =
      (Ret tt, State (store st ++ ext) (url_map st ++ rules) (stdout st)) /\
    map (resolve (store st ++ ext)) rules =
      map (binding_of (store st)) (flat_map leaves routes) /\
    map (fun r => contents (store st ++ ext) (decorators (view_func r))) rules =
      map (fun gl =>
             concat (map (fun g => contents (store st) (g_components g)) (fst gl)) ++
             contents (store st) (l_components (snd gl)) ++ [l_handler (snd gl)])
          (flat_map leaves routes).
Proof.
  intros Hal Hro.
  destruct (add_routes_registers routes st Hal Hro)
    as (st' & Hrun & ext & rules & -> & _ & Hres).
  exists ext, rules. split; [exact Hrun|]. split; [exact Hres|].
  apply (f_equal (map b_decorators)) in Hres.
  rewrite !map_map in Hres. exact Hres.
Qed.

Lemma add_routes_decorator_lists_witness :
  exists (ext : list (list klass)) (rules : list url_rule),
    add_routes (Some nested_routes) None "" "" (State [[A]; [B]; [Plain]] [] []) =
      (Ret tt, State ([[A]; [B]; [Plain]] ++ ext) ([] ++ rules) []) /\
    map (resolve ([[A]; [B]; [Plain]] ++ ext)) rules =
      [Binding "/g/h/l" (Some "g.h.leaf") [A; B; Plain; JSONAPIHandler] ["GET"]] /\
    map (fun r => contents ([[A]; [B]; [Plain]] ++ ext) (decorators (view_func r)))
        rules =
      [[A] ++ [B] ++ [Plain] ++ [JSONAPIHandler]].
Proof.
  apply (add_routes_decorator_lists nested_routes (State [[A]; [B]; [Plain]] [] []));
    reflexivity.
Defined.

(** C6.  [add_route] only adds list objects to the store: every list that
    existed before, the [components] list of every node included, holds the
    same items afterwards.  Registering the same tree a second time yields
    rules that stand for the same bindings (path, name, decorator list,
    methods) as the rules of the first time. *)
Theorem add_routes_twice_same_bindings (routes : list route_like) (st : state) :
  forallb (allocated (length (store st))) routes = true ->
  forallb has_routes routes = true ->
  exists (st1 st2 : state) (rules1 rules2 : list url_rule),
    add_routes (Some routes) None "" "" st = (Ret tt, st1) /\
    add_routes (Some routes) None "" "" st1 = (Ret tt, st2) /\
    url_map st1 = url_map st ++ rules1 /\
    url_map st2 = url_map st1 ++ rules2 /\
    (forall (l : loc) (xs : list klass),
        store st !! l = Some xs ->
        store st1 !! l = Some xs /\ store st2 !! l = Some xs) /\
    map (resolve (store st1)) rules1 = map (resolve (store st2)) rules2 /\
    map (resolve (store st2)) rules1 = map (resolve (store st2)) rules2.
Proof.
  intros Hal Hro.
  destruct (add_routes_registers routes st Hal Hro) as (st1 & Hrun1 & Hreg1).
  destruct (add_routes_registers routes st1) as (st2 & Hrun2 & Hreg2).
  - eapply forallb_allocated_mono; [|exact Hal].
    eapply registers_length; exact Hreg1.
  - exact Hro.
  - pose proof (fun l xs => registers_lookup _ _ _ l xs Hreg1) as Hframe1.
    pose proof (fun l xs => registers_lookup _ _ _ l xs Hreg2) as Hframe2.
    destruct Hreg1 as (e1 & r1 & -> & Hb1 & Hres1).
    destruct Hreg2 as (e2 & r2 & -> & Hb2 & Hres2).
    cbn [store url_map stdout] in *.
    assert (Hsame : map (binding_of (store st ++ e1)) (flat_map leaves routes) =
                    map (binding_of (store st)) (flat_map leaves routes)).
    { erewrite map_ext; [|intros gl; symmetry; apply binding_from_root].
      rewrite (binding_from_mono (length (store st)));
        [reflexivity | lia | now apply flat_map_leaves_below]. }
    assert (Hkeep : map (resolve ((store st ++ e1) ++ e2)) r1 =
                    map (resolve (store st ++ e1)) r1).
    { apply map_ext_Forall. eapply Forall_impl; [exact Hb1|].
      simpl. intros r Hr. unfold resolve. f_equal. now apply contents_app. }
    exists (State (store st ++ e1) (url_map st ++ r1) (stdout st)),
      (State ((store st ++ e1) ++ e2) ((url_map st ++ r1) ++ r2) (stdout st)),
      r1, r2.
    cbn [store url_map stdout].
    refine (conj Hrun1 (conj Hrun2 (conj eq_refl (conj eq_refl (conj _ (conj _ _)))))).
    + intros l xs Hl. split; [now apply Hframe1 | now apply Hframe2, Hframe1].
    + now rewrite Hres1, Hres2, Hsame.
    + now rewrite Hkeep, Hres1, Hres2, Hsame.
Qed.

Lemma add_routes_twice_same_bindings_witness :
  exists (st1 st2 : state) (rules1 rules2 : list url_rule),
    add_routes (Some nested_routes) None "" "" (State [[A]; [B]; [Plain]] [] []) =
      (Ret tt, st1) /\
    add_routes (Some nested_routes) None "" "" st1 = (Ret tt, st2) /\
    url_map st1 = [] ++ rules1 /\
    url_map st2 = url_map st1 ++ rules2 /\
    (forall (l : loc) (xs : list klass),
        [[A]; [B]; [Plain]] !! l = Some xs ->
        store st1 !! l = Some xs /\ store st2 !! l = Some xs) /\
    map (resolve (store st1)) rules1 = map (resolve (store st2)) rules2 /\
    map (resolve (store st2)) rules1 = map (resolve (store st2)) rules2.
Proof.
  apply (add_routes_twice_same_bindings nested_routes
           (State [[A]; [B]; [Plain]] [] []));
    reflexivity.
Defined.

Lemma str_or_none_empty (s : string) : s = "" -> str_or_none s = None.
Proof. now intros ->. Qed.

Lemma str_or_none_nonempty (s : string) : s <> "" -> str_or_none s = Some s.
Proof. now destruct s. Qed.

(** C7.  The name passed to the URL map for a leaf is absent ([None]) when
    the accumulated namespace and the route's name concatenate to the empty
    string, and is that concatenation otherwise. *)
Theorem registered_name_absent_iff_empty (path : string) (ctrl : controller_t)
  (h : klass) (meth name : string) (cl comps : loc) (prefix ns : string)
  (st : state) (inherited own : list klass) :
  store st !! comps = Some inherited ->
  store st !! cl = Some own ->
  exists (st' : state) (r : url_rule),
    add_route (Route path ctrl h meth name cl) comps prefix ns st = (Ret tt, st') /\
    url_map st' = url_map st ++ [r] /\
    (ns +:+ name = "" -> endpoint r = None) /\
    (ns +:+ name <> "" -> endpoint r = Some (ns +:+ name)).
Proof.
  intros Hc Hl. eexists. eexists.
  split; [apply (add_route_leaf_run _ _ _ _ _ _ _ _ _ _ _ _ Hc Hl)|].
  split; [reflexivity|]. cbn [endpoint]. unfold format2. split.
  - apply str_or_none_empty.
  - apply str_or_none_nonempty.
Qed.

Lemma registered_name_absent_iff_empty_witness :
  (exists (st' : state) (r : url_rule),
      add_route (Route "/<id>" controller JSONAPIHandler "GET" "" 1) 0 "/users" ""
        (State [[A]; [B]] [] []) = (Ret tt, st') /\
      url_map st' = [] ++ [r] /\ endpoint r = None) /\
  (exists (st' : state) (r : url_rule),
      add_route (Route "/<id>" controller JSONAPIHandler "GET" "test" 1) 0
        "/users" "api." (State [[A]; [B]] [] []) = (Ret tt, st') /\
      url_map st' = [] ++ [r] /\ endpoint r = Some "api.test").
Proof.
  split.
  - destruct (registered_name_absent_iff_empty "/<id>" controller JSONAPIHandler
                "GET" "" 1 0 "/users" "" (State [[A]; [B]] [] []) [A] [B]
                eq_refl eq_refl) as (st' & r & Hrun & Hmap & Hnone & _).
    exists st', r. repeat split; [exact Hrun | exact Hmap | now apply Hnone].
  - destruct (registered_name_absent_iff_empty "/<id>" controller JSONAPIHandler
                "GET" "test" 1 0 "/users" "api." (State [[A]; [B]] [] []) [A] [B]
                eq_refl eq_refl) as (st' & r & Hrun & Hmap & _ & Hsome).
    exists st', r. repeat split; [exact Hrun | exact Hmap | now apply Hsome].
Defined.

(** C8 (the code departs from it for an absent list).  A group whose routes
    are [None] makes [add_routes] raise [TypeError], the error of iterating
    over [None], so registration stops there instead of going on with zero
    routes.  A group whose list of routes is empty registers nothing and
    registration returns normally. *)
Theorem add_routes_absent_routes_raise :
  let st := State [[]] [] [] in
  fst (add_routes (Some [Include "/users" None 0 ""]) None "" "" st) =
    Raise TypeError /\
  fst (add_routes (Some [Include "/users" (Some []) 0 ""]) None "" "" st) =
    Ret tt /\
  url_map (snd (add_routes (Some [Include "/users" (Some []) 0 ""]) None "" "" st)) =
    [].
Proof. repeat split. Qed.

(** C3.  The reference scenario.  The script builds an [Include] of
    [/users] with components [[A]] around one [Route] of [/<id>] named
    [test] with components [[B]] and handler [JSONAPIHandler]; registering it
    adds one rule, [/users/<id>], whose list holds [[A; B; JSONAPIHandler]];
    a request to [/users/1] matches it with [id = 1] and builds the chain
    [A(B(JSONAPIHandler()))]; [test()] on that chain returns the mapping
    [hello: world, B: True, A: True], in this order; the controller prints
    that mapping and returns [hello, world!], which the script prints
    next. *)
Theorem reference_scenario :
  let registered :=
    snd ((routes <- make_routes ;; add_routes (Some routes) None "" "") initial) in
  let r := UrlRule "/users/<id>" (Some "test") (Partial controller 6) ["GET"] in
  let chain := Wrap A (Wrap B (Inst JSONAPIHandler)) in
  let mapping :=
    VDict [("hello", VStr "world"); ("B", VBool true); ("A", VBool true)] in
  fst (make_routes initial) =
    Ret [Include "/users"
           (Some [Route "/<id>" controller JSONAPIHandler "GET" "test" 0]) 1 ""] /\
  store (snd (make_routes initial)) = [[B]; [A]] /\
  url_map registered = [r] /\
  store registered !! 6 = Some [A; B; JSONAPIHandler] /\
  find_rule "GET" "/users/1" (url_map registered) = Some (r, [("id", "1")]) /\
  fst (build_handler 6 registered) = Ret chain /\
  invoke chain "test" [] = Ret mapping /\
  fst (client_get "/users/1" registered) = Ret (VStr "hello, world!") /\
  stdout (snd (client_get "/users/1" registered)) = [mapping] /\
  fst (main initial) = Ret tt /\
  stdout (snd (main initial)) = [mapping; VStr "hello, world!"].
Proof. repeat split. Qed.

(** ** More on dispatch_request *)

Lemma is_component_b_true (k : klass) : is_component_b k = true <-> is_component k.
Proof. unfold is_component_b, is_component. destruct (cls_base k); split; congruence. Qed.

Lemma is_handler_b_true (k : klass) : is_handler_b k = true <-> is_handler k.
Proof. unfold is_handler_b, is_handler. destruct (cls_base k); split; congruence. Qed.

Lemma forallb_is_component (ds : list klass) :
  forallb is_component_b ds = true <-> Forall is_component ds.
Proof.
  induction ds as [|d ds IH]; simpl.
  - split; [constructor | reflexivity].
  - rewrite andb_true_iff, IH, is_component_b_true. split.
    + intros [Hd Hds]. now constructor.
    + intros H. inversion H; subst. now split.
Qed.

Lemma chain_ok_inv (items : list klass) :
  chain_ok items = true ->
  exists (ds : list klass) (c : klass),
    items = ds ++ [c] /\ Forall is_component ds /\ is_handler c.
Proof.
  unfold chain_ok. destruct (unsnoc items) as [[ds c]|] eqn:E; [|discriminate].
  rewrite andb_true_iff, forallb_is_component, is_handler_b_true.
  intros [Hds Hc]. exists ds, c. split; [now apply unsnoc_some_inv | now split].
Qed.

Lemma chain_ok_snoc (ds : list klass) (c : klass) :
  chain_ok (ds ++ [c]) = forallb is_component_b ds && is_handler_b c.
Proof. unfold chain_ok. now rewrite unsnoc_snoc. Qed.

(** The loop stops at the first class that is not a component class. *)
Lemma wrap_popped_not_components (popped : list klass) :
  forall h : obj,
    forallb is_component_b popped = false ->
    fst (wrap_popped popped h) = Raise TypeError.
Proof.
  induction popped as [|d rest IH]; intros h H; simpl in H; [discriminate|].
  simpl. unfold call1. unfold is_component_b in H at 1.
  destruct (cls_base d); [reflexivity|]. simpl in H. now apply IH.
Qed.

(** What the loop leaves is a tail of what it was given to pop. *)
Lemma wrap_popped_left (popped : list klass) :
  forall h : obj,
    exists used : list klass, popped = used ++ snd (wrap_popped popped h).
Proof.
  induction popped as [|d rest IH]; intros h.
  - now exists [].
  - simpl. destruct (call1 d h) as [h'| e |].
    + destruct (IH h') as [used Hused]. exists (d :: used). simpl. now f_equal.
    + now exists [d].
    + now exists [d].
Qed.

Lemma construct_left (items : list klass) :
  exists popped : list klass, items = snd (construct items) ++ popped.
Proof.
  unfold construct. destruct (unsnoc items) as [[ds c]|] eqn:E.
  - apply unsnoc_some_inv in E. subst items.
    destruct (call0 c) as [h| e |]; simpl; try (now exists [c]).
    destruct (wrap_popped_left (rev ds) h) as [used Hused].
    exists (rev used ++ [c]). rewrite app_assoc. f_equal.
    rewrite <- rev_app_distr, <- Hused. now rewrite rev_involutive.
  - exists []. now rewrite app_nil_r.
Qed.

Lemma forallb_rev_eq {T : Type} (p : T -> bool) (l : list T) :
  forallb p (rev l) = forallb p l.
Proof.
  induction l as [|x l IH]; [reflexivity|].
  simpl. rewrite forallb_app, IH. simpl. rewrite andb_true_r. apply andb_comm.
Qed.

Lemma construct_not_ok (items : list klass) :
  items <> [] -> chain_ok items = false ->
  fst (construct items) = Raise TypeError.
Proof.
  intros Hne Hok. unfold chain_ok in Hok. unfold construct.
  destruct (unsnoc items) as [[ds c]|] eqn:E.
  - unfold call0. unfold is_handler_b in Hok.
    destruct (cls_base c); [|reflexivity]. simpl.
    rewrite andb_true_r in Hok. apply wrap_popped_not_components.
    rewrite forallb_rev_eq. exact Hok.
  - apply unsnoc_nil_inv in E. contradiction.
Qed.

(** The state a dispatch leaves: the same but for its own list, which keeps
    a front part of its items, and for the output. *)
Lemma dispatch_request_shape (f : controller_t) (l : loc) (uri_args : kwargs)
  (st : state) (items : list klass) :
  store st !! l = Some items ->
  exists (o : outcome value) (kept popped : list klass) (printed : list value),
    dispatch_request f l uri_args st =
      (o, State (<[l := kept]> (store st)) (url_map st) (stdout st ++ printed)) /\
    items = kept ++ popped.
Proof.
  intros Hl. rewrite (dispatch_request_run _ _ _ _ _ Hl).
  destruct (construct_left items) as [popped Hpopped].
  destruct (fst (construct items)) as [h| e |].
  - unfold call_controller. destruct (f h uri_args) as [printed result].
    now exists result, (snd (construct items)), popped, printed.
  - exists (Raise e), (snd (construct items)), popped, [].
    unfold set_store. now rewrite app_nil_r.
  - exists Stuck, (snd (construct items)), popped, [].
    unfold set_store. now rewrite app_nil_r.
Qed.

Lemma dispatch_request_result (f : controller_t) (l : loc)
  (uri_args : kwargs) (st : state) (items : list klass) :
  store st !! l = Some items ->
  dispatch_request f l uri_args st =
    match fst (build_handler l st) with
    | Ret h =>
        (snd (f h uri_args),
         State (store (snd (build_handler l st))) (url_map st)
               (stdout st ++ fst (f h uri_args)))
    | Raise e => (Raise e, snd (build_handler l st))
    | Stuck => (Stuck, snd (build_handler l st))
    end.
Proof.
  intros Hl. unfold dispatch_request, bind.
  rewrite (build_handler_run _ _ _ Hl). cbn [fst snd].
  destruct (fst (construct items)) as [h| e |]; try reflexivity.
  unfold call_controller. now destruct (f h uri_args).
Qed.

(** X1.  [dispatch_request] touches nothing but the list it is given and
    the output: the URL map, the number of list objects and every other
    list object stay as they are; its own list keeps a front part of its
    items (what was not popped) and the store is what building the handler
    left; the output grows by exactly what the controller printed on the
    handler built, and by nothing when no handler was built; the result is
    the controller's. *)
Theorem dispatch_request_frame (f : controller_t) (l : loc)
  (uri_args : kwargs) (st : state) (items : list klass) :
  store st !! l = Some items ->
  let built := fst (build_handler l st) in
  let st' := snd (dispatch_request f l uri_args st) in
  url_map st' = url_map st /\
  length (store st') = length (store st) /\
  (forall l' : loc, l' <> l -> store st' !! l' = store st !! l') /\
  (exists kept popped : list klass,
      store st' !! l = Some kept /\ items = kept ++ popped) /\
  store st' = store (snd (build_handler l st)) /\
  stdout st' =
    stdout st ++
    match built with
    | Ret h => fst (f h uri_args)
    | _ => []
    end /\
  fst (dispatch_request f l uri_args st) =
    match built with
    | Ret h => snd (f h uri_args)
    | Raise e => Raise e
    | Stuck => Stuck
    end.
Proof.
  intros Hl built st'. subst built st'.
  assert (Hlt : l < length (store st)) by (eapply lookup_lt_Some; eauto).
  rewrite (dispatch_request_result _ _ _ _ _ Hl).
  rewrite (build_handler_run _ _ _ Hl). cbn [fst snd].
  destruct (construct_left items) as [popped Hpopped].
  assert (Hstore :
    length (<[l := snd (construct items)]> (store st)) = length (store st) /\
    (forall l' : loc, l' <> l ->
       <[l := snd (construct items)]> (store st) !! l' = store st !! l') /\
    (exists kept popped : list klass,
       <[l := snd (construct items)]> (store st) !! l = Some kept /\
       items = kept ++ popped)).
  { split; [apply length_insert|]. split.
    - intros l' Hne. now apply list_lookup_insert_ne.
    - exists (snd (construct items)), popped.
      split; [now apply list_lookup_insert_eq | exact Hpopped]. }
  destruct Hstore as (Hlen & Hother & Hkept).
  destruct (fst (construct items)) as [h| e |];
    cbn [fst snd store url_map stdout set_store];
    rewrite ?app_nil_r; repeat split; assumption.
Qed.

Lemma dispatch_request_frame_witness :
  let st := State [[A]; [A; B; JSONAPIHandler]; [B]] [] [VStr "before"] in
  let st' := snd (dispatch_request controller 1 [] st) in
  url_map st' = url_map st /\
  length (store st') = length (store st) /\
  (forall l' : loc, l' <> 1 -> store st' !! l' = store st !! l') /\
  (exists kept popped : list klass,
      store st' !! 1 = Some kept /\ [A; B; JSONAPIHandler] = kept ++ popped) /\
  store st' = [[A]; []; [B]] /\
  stdout st' =
    [VStr "before";
     VDict [("hello", VStr "world"); ("B", VBool true); ("A", VBool true)]] /\
  fst (dispatch_request controller 1 [] st) = Ret (VStr "hello, world!").
Proof.
  apply (dispatch_request_frame controller 1 []
           (State [[A]; [A; B; JSONAPIHandler]; [B]] [] [VStr "before"])
           [A; B; JSONAPIHandler]).
  reflexivity.
Defined.

(** X2.  [dispatch_request] calls the controller exactly when the list is
    made of component classes followed by one handler class, and then the
    list is left empty.  On any other non-empty list a constructor call
    fails: the call raises [TypeError] and the controller prints
    nothing. *)
Theorem dispatch_request_outcome (f : controller_t) (l : loc)
  (uri_args : kwargs) (st : state) (items : list klass) :
  store st !! l = Some items ->
  items <> [] ->
  (chain_ok items = true ->
   exists (ds : list klass) (c : klass),
     items = ds ++ [c] /\
     dispatch_request f l uri_args st =
       call_controller f (nest ds c) uri_args
         (set_store st (<[l := []]> (store st)))) /\
  (chain_ok items = false ->
   fst (dispatch_request f l uri_args st) = Raise TypeError /\
   stdout (snd (dispatch_request f l uri_args st)) = stdout st).
Proof.
  intros Hl Hne. rewrite (dispatch_request_run _ _ _ _ _ Hl). split.
  - intros Hok. destruct (chain_ok_inv _ Hok) as (ds & c & -> & Hds & Hc).
    exists ds, c. split; [reflexivity|].
    now rewrite (construct_nest _ _ Hds Hc).
  - intros Hok. now rewrite (construct_not_ok _ Hne Hok).
Qed.

Lemma dispatch_request_outcome_witness :
  (exists (ds : list klass) (c : klass),
      [A; B; JSONAPIHandler] = ds ++ [c] /\
      dispatch_request controller 0 [] (State [[A; B; JSONAPIHandler]] [] []) =
        call_controller controller (nest ds c) []
          (set_store (State [[A; B; JSONAPIHandler]] [] []) [[]])) /\
  fst (dispatch_request controller 0 [] (State [[JSONAPIHandler; A]] [] [])) =
    Raise TypeError /\
  stdout (snd (dispatch_request controller 0 [] (State [[JSONAPIHandler; A]] [] []))) =
    [].
Proof.
  split.
  - destruct (dispatch_request_outcome controller 0 []
                (State [[A; B; JSONAPIHandler]] [] []) [A; B; JSONAPIHandler]
                eq_refl) as [Hok _]; [discriminate|].
    apply Hok. reflexivity.
  - destruct (dispatch_request_outcome controller 0 []
                (State [[JSONAPIHandler; A]] [] []) [JSONAPIHandler; A]
                eq_refl) as [_ Hbad]; [discriminate|].
    apply Hbad. reflexivity.
Defined.

(** X3.  A dispatch that fails in the middle has still consumed the list:
    when the class [d] cannot wrap the object built from the classes after
    it (it is a handler class), the call raises [TypeError], the list keeps
    only the items before [d], and the controller is not called. *)
Theorem dispatch_request_failure_truncates (f : controller_t) (l : loc)
  (uri_args : kwargs) (st : state) (ds1 ds2 : list klass) (d c : klass) :
  store st !! l = Some (ds1 ++ d :: ds2 ++ [c]) ->
  Forall is_component ds2 ->
  is_handler c ->
  is_handler d ->
  dispatch_request f l uri_args st =
    (Raise TypeError, set_store st (<[l := ds1]> (store st))).
Proof.
  intros Hl Hds Hc Hd. rewrite (dispatch_request_run _ _ _ _ _ Hl).
  rewrite (construct_raises_at ds1 ds2 d c TypeError Hds Hc); [reflexivity|].
  unfold call1. now rewrite Hd.
Qed.

Lemma dispatch_request_failure_truncates_witness :
  dispatch_request controller 0 []
    (State [[A; JSONAPIHandler; B; JSONAPIHandler]] [] []) =
    (Raise TypeError, State [[A]] [] []).
Proof.
  apply (dispatch_request_failure_truncates controller 0 []
           (State [[A; JSONAPIHandler; B; JSONAPIHandler]] [] [])
           [A] [B] JSONAPIHandler JSONAPIHandler);
    [reflexivity | repeat constructor | reflexivity | reflexivity].
Defined.

(** ** More on attribute lookup through a chain *)

(** X4.  A call of an operation goes to the outermost decorator that
    overrides it: the decorators above it, which forward the name, add
    nothing to the result, and its method runs with the rest of the chain
    as its parent. *)
Theorem invoke_reaches_outermost_override (pre post : list klass)
  (d c : klass) (name : string) (m : method) (kw : kwargs) :
  Forall (fun d' => forwards d' name = true) pre ->
  ordinary d = true ->
  name <> "parent" ->
  assoc name (cls_methods d) = Some m ->
  invoke (nest (pre ++ d :: post) c) name kw = m (invoke (nest post c)) kw /\
  invoke (nest (pre ++ d :: post) c) name kw =
    invoke (nest (d :: post) c) name kw.
Proof.
  intros Hpre _ Hname Hm. apply Forall_forwards_defines in Hpre.
  assert (H : invoke (nest (pre ++ d :: post) c) name kw =
              invoke (nest (d :: post) c) name kw).
  { unfold invoke. rewrite nest_app. now rewrite getattr_wraps_forward. }
  split; [|exact H]. rewrite H.
  change (nest (d :: post) c) with (Wrap d (nest post c)).
  now apply invoke_wrap_method.
Qed.

Lemma invoke_reaches_outermost_override_witness :
  invoke (nest ([Plain; Plain] ++ A :: [B]) JSONAPIHandler) "test" [] =
    A_test (invoke (nest [B] JSONAPIHandler)) [] /\
  invoke (nest ([Plain; Plain] ++ A :: [B]) JSONAPIHandler) "test" [] =
    invoke (nest (A :: [B]) JSONAPIHandler) "test" [].
Proof.
  apply (invoke_reaches_outermost_override [Plain; Plain] [B] A JSONAPIHandler
           "test" A_test []).
  - repeat constructor.
  - reflexivity.
  - discriminate.
  - reflexivity.
Defined.

Lemma getattr_nest_undefined (ds : list klass) (c : klass) (name : string) :
  Forall (fun d => defines d name = false) ds ->
  reserved name = false ->
  assoc name (cls_methods c) = None ->
  getattr (nest ds c) name = Raise AttributeError.
Proof.
  intros Hds Hr Hc. rewrite (getattr_nest_forward _ _ _ Hds). simpl.
  now rewrite Hc, (not_reserved_not_inherited _ _ Hr), Hr.
Qed.

(** X5.  An operation with an ordinary name that no class of the chain
    defines ends in [AttributeError]: every component forwards the name and
    the handler has no fallback. *)
Theorem invoke_undefined_operation (ds : list klass) (c : klass)
  (name : string) (kw : kwargs) :
  Forall (fun d => forwards d name = true) ds ->
  ordinary c = true ->
  reserved name = false ->
  assoc name (cls_methods c) = None ->
  getattr (nest ds c) name = Raise AttributeError /\
  invoke (nest ds c) name kw = Raise AttributeError.
Proof.
  intros Hds _ Hr Hc. apply Forall_forwards_defines in Hds.
  pose proof (getattr_nest_undefined ds c name Hds Hr Hc) as H.
  split; [exact H|]. unfold invoke. now rewrite H.
Qed.

Lemma invoke_undefined_operation_witness :
  getattr (nest [A; B] JSONAPIHandler) "ping" = Raise AttributeError /\
  invoke (nest [A; B] JSONAPIHandler) "ping" [] = Raise AttributeError.
Proof.
  apply (invoke_undefined_operation [A; B] JSONAPIHandler "ping" []).
  - repeat constructor.
  - reflexivity.
  - reflexivity.
  - reflexivity.
Defined.



(** ** The decorators [A] and [B] *)

Lemma assoc_dict_set_same (items : list (string * value)) (key : string)
  (v : value) :
  assoc key (dict_set items key v) = Some v.
Proof.
  induction items as [|[k x] items IH]; simpl.
  - now rewrite String.eqb_refl.
  - destruct (String.eqb k key) eqn:E; simpl; rewrite E; [reflexivity | exact IH].
Qed.

Lemma assoc_dict_set_other (items : list (string * value)) (key key' : string)
  (v : value) :
  key' <> key ->
  assoc key' (dict_set items key v) = assoc key' items.
Proof.
  intros Hne. induction items as [|[k x] items IH]; simpl.
  - destruct (String.eqb key key') eqn:E; [|reflexivity].
    apply String.eqb_eq in E. congruence.
  - destruct (String.eqb k key) eqn:E; simpl.
    + apply String.eqb_eq in E. subst k.
      destruct (String.eqb key key') eqn:E'; [|reflexivity].
      apply String.eqb_eq in E'. congruence.
    + destruct (String.eqb k key'); [reflexivity | exact IH].
Qed.


Lemma invoke_A (o : obj) (kw : kwargs) :
  invoke (Wrap A o) "test" kw = flagged "A" (invoke o "test" kw).
Proof. reflexivity. Qed.

Lemma invoke_B (o : obj) (kw : kwargs) :
  invoke (Wrap B o) "test" kw = flagged "B" (invoke o "test" kw).
Proof. reflexivity. Qed.



Lemma same_item_flagged_swap (k1 k2 key : string) (r : outcome value) :
  same_item key (flagged k1 (flagged k2 r)) (flagged k2 (flagged k1 r)).
Proof.
  destruct r as [[| b | s | d]| e |]; simpl; try reflexivity.
  destruct (String.eqb_spec key k1) as [->|H1].
  - rewrite assoc_dict_set_same.
    destruct (String.eqb_spec k1 k2) as [->|H12].
    + now rewrite assoc_dict_set_same.
    + rewrite assoc_dict_set_other by exact H12.
      now rewrite assoc_dict_set_same.
  - rewrite assoc_dict_set_other by exact H1.
    destruct (String.eqb_spec key k2) as [->|H2].
    + now rewrite !assoc_dict_set_same.
    + now rewrite !assoc_dict_set_other by assumption.
Qed.

(** X8.  Wrapping with [A] outside [B] or with [B] outside [A] gives
    [test()] the same items: both fail with the same exception, or both
    return dictionaries with the same value at every key (only the place of
    the keys [A] and [B] can differ).  Wrapping twice with [A] is the same
    as wrapping once. *)
Theorem decorators_commute_on_items (o : obj) (kw : kwargs) (key : string) :
  same_item key
    (invoke (Wrap A (Wrap B o)) "test" kw)
    (invoke (Wrap B (Wrap A o)) "test" kw) /\
  same_item key
    (invoke (Wrap A (Wrap A o)) "test" kw)
    (invoke (Wrap A o) "test" kw).
Proof.
  rewrite !invoke_A, !invoke_B, !invoke_A. split.
  - apply same_item_flagged_swap.
  - destruct (invoke o "test" kw) as [[| b | s | d]| e |]; simpl; try reflexivity.
    destruct (String.eqb_spec key "A") as [->|HA].
    + now rewrite !assoc_dict_set_same.
    + now rewrite !assoc_dict_set_other by exact HA.
Qed.

(** ** More on registration *)

Lemma extends_refl (st : state) : extends st st.
Proof. exists [], []. rewrite !app_nil_r. now destruct st. Qed.

Lemma extends_trans (st1 st2 st3 : state) :
  extends st1 st2 -> extends st2 st3 -> extends st1 st3.
Proof.
  intros (e1 & r1 & ->) (e2 & r2 & ->). cbn [store url_map stdout].
  exists (e1 ++ e2), (r1 ++ r2). now rewrite !app_assoc.
Qed.

Lemma extends_alloc (st : state) (xs : list klass) :
  extends st (set_store st (store st ++ [xs])).
Proof. exists [xs], []. now rewrite app_nil_r. Qed.

Lemma registers_extends (st st' : state) (bs : list binding) :
  registers st st' bs -> extends st st'.
Proof. intros (e & r & -> & _ & _). now exists e, r. Qed.

Lemma extends_lookup (st st' : state) (l : loc) (xs : list klass) :
  extends st st' -> store st !! l = Some xs -> store st' !! l = Some xs.
Proof. intros (e & r & ->) H. simpl. now apply lookup_app_l_Some. Qed.

Lemma extends_length (st st' : state) :
  extends st st' -> length (store st) <= length (store st').
Proof. intros (e & r & ->). simpl. rewrite length_app. lia. Qed.

Lemma or_empty_some_extends (l : loc) (st : state) (xs : list klass) :
  store st !! l = Some xs ->
  exists (l' : loc) (st' : state),
    or_empty (Some l) st = (Ret l', st') /\
    extends st st' /\ url_map st' = url_map st /\
    store st' !! l' = Some xs.
Proof.
  intros Hl. unfold or_empty, bind. rewrite (list_bool_some _ _ _ Hl).
  destruct xs as [|x xs].
  - exists (length (store st)), (set_store st (store st ++ [[]])).
    repeat split; [apply extends_alloc | apply lookup_snoc_last].
  - exists l, st. repeat split; [apply extends_refl | exact Hl].
Qed.

Lemma for_each_cons {T : Type} (body : T -> M unit) (x : T) (xs : list T) :
  for_each body (x :: xs) = (body x ;; for_each body xs).
Proof. reflexivity. Qed.

Lemma for_each_aborts (c : loc) (pre ns : string) (rs : list route_like) :
  Forall aborts rs ->
  forall (st : state) (cs : list klass),
    forallb (allocated (length (store st))) rs = true ->
    forallb has_routes rs = false ->
    store st !! c = Some cs ->
    exists st' : state,
      for_each (fun route => add_route route c pre ns) rs st =
        (Raise TypeError, st') /\
      extends st st'.
Proof.
  induction 1 as [|r rs Hr _ IH]; intros st cs Hal Hro Hc; [discriminate|].
  simpl in Hal, Hro. apply andb_true_iff in Hal as [Hal_r Hal_rs].
  rewrite for_each_cons. unfold bind.
  destruct (has_routes r) eqn:Er.
  - destruct (add_route_registers r c pre ns st cs Hal_r Er Hc)
      as (st1 & Hrun1 & Hreg1).
    apply registers_extends in Hreg1.
    destruct (IH st1 cs) as (st2 & Hrun2 & Hext2).
    + eapply forallb_allocated_mono; [|exact Hal_rs].
      now apply extends_length.
    + exact Hro.
    + eapply extends_lookup; eauto.
    + exists st2. rewrite Hrun1. split; [exact Hrun2|].
      eapply extends_trans; eauto.
  - destruct (Hr c pre ns st cs Hal_r Er Hc) as (st1 & Hrun1 & Hext1).
    exists st1. now rewrite Hrun1.
Qed.

Lemma add_route_aborts (r : route_like) : aborts r.
Proof.
  induction r as [path ctrl h me na cl | prefix rs cl nsp IH]
    using route_like_induction;
    intros c pre ns st cs Hal Hro Hc; [discriminate|].
  simpl in Hal. apply andb_true_iff in Hal as [Hcl Hal].
  apply Nat.ltb_lt in Hcl.
  destruct (lookup_lt_is_Some_2 _ _ Hcl) as [own Hown].
  rewrite add_route_Include.
  pose proof (list_add_run _ _ _ _ _ Hc Hown) as Hadd.
  set (st1 := set_store st (store st ++ [cs ++ own])) in *.
  assert (Hext1 : extends st st1) by apply extends_alloc.
  assert (Hn : store st1 !! length (store st) = Some (cs ++ own))
    by apply lookup_snoc_last.
  destruct (or_empty_some_extends _ _ _ Hn) as (l' & st2 & Hor & Hext2 & _ & Hl').
  pose proof (extends_trans _ _ _ Hext1 Hext2) as Hext12.
  unfold bind at 1. rewrite Hadd. unfold add_routes, add_routes_with.
  unfold bind at 1. rewrite Hor.
  destruct rs as [rs|].
  - simpl in Hro.
    destruct (for_each_aborts l' (format2 pre prefix) (format2 ns nsp) rs IH
                st2 (cs ++ own)) as (st3 & Hrun & Hext3).
    + eapply forallb_allocated_mono; [|exact Hal]. now apply extends_length.
    + exact Hro.
    + exact Hl'.
    + exists st3. split; [exact Hrun|]. eapply extends_trans; eauto.
  - exists st2. split; [reflexivity | exact Hext12].
Qed.

(** X9.  As soon as the walk meets a group without a list of routes, at
    any depth, [add_route] raises [TypeError]: a tree one of whose groups
    has routes [None] never registers completely.  The store and the URL
    map have only grown by then: rules registered before the failure stay
    registered. *)
Theorem add_route_raises_without_routes (r : route_like) (c : loc)
  (pre ns : string) (st : state) (cs : list klass) :
  allocated (length (store st)) r = true ->
  store st !! c = Some cs ->
  has_routes r = false ->
  fst (add_route r c pre ns st) = Raise TypeError /\
  extends st (snd (add_route r c pre ns st)).
Proof.
  intros Hal Hc Hro.
  destruct (add_route_aborts r c pre ns st cs Hal Hro Hc) as (st' & -> & Hext).
  now split.
Qed.

Lemma add_route_raises_without_routes_witness :
  let r :=
    Include "/g"
      (Some [Route "/l" controller JSONAPIHandler "GET" "leaf" 1;
             Include "/h" (Some [Include "/deep" None 0 ""]) 0 "";
             Route "/late" controller JSONAPIHandler "GET" "late" 1])
      0 "" in
  fst (add_route r 0 "" "" (State [[A]; [B]] [] [])) = Raise TypeError /\
  extends (State [[A]; [B]] [] []) (snd (add_route r 0 "" "" (State [[A]; [B]] [] []))).
Proof.
  intros r.
  apply (add_route_raises_without_routes r 0 "" "" (State [[A]; [B]] [] []) [A]);
    reflexivity.
Defined.

Lemma for_each_app {T : Type} (body : T -> M unit) (xs ys : list T) (st : state) :
  for_each body (xs ++ ys) st =
    match for_each body xs st with
    | (Ret _, st') => for_each body ys st'
    | (Raise e, st') => (Raise e, st')
    | (Stuck, st') => (Stuck, st')
    end.
Proof.
  revert st. induction xs as [|x xs IH]; intros st; [reflexivity|].
  simpl app. rewrite !for_each_cons. unfold bind.
  destruct (body x st) as [[[]| e |] st1]; [apply IH | reflexivity | reflexivity].
Qed.

Lemma registers_nil_of_allocs (st st' : state) :
  extends st st' -> url_map st' = url_map st -> registers st st' [].
Proof.
  intros (e & r & ->) Hmap. cbn [url_map] in Hmap.
  assert (r = []) as ->.
  { apply (f_equal length) in Hmap. rewrite length_app in Hmap.
    destruct r; [reflexivity | simpl in Hmap; lia]. }
  exists e, []. repeat split. constructor.
Qed.

(** X10.  Registration is not all or nothing.  When the routes passed to
    [add_routes] hold a group without routes after routes that are fine, the
    call raises [TypeError], but the rules of the routes before that group
    have been added to the URL map, with their full bindings; the routes
    after it are never looked at. *)
Theorem add_routes_keeps_rules_before_failure (good rest : list route_like)
  (prefix namespace : string) (cl : loc) (st : state) :
  forallb (allocated (length (store st))) good = true ->
  forallb has_routes good = true ->
  cl < length (store st) ->
  exists st' : state,
    add_routes (Some (good ++ Include prefix None cl namespace :: rest))
      None "" "" st = (Raise TypeError, st') /\
    registers st st' (map (binding_of (store st)) (flat_map leaves good)).
Proof.
  intros Hal Hro Hcl.
  set (st1 := set_store st (store st ++ [[]])).
  assert (Hreg1 : registers st st1 []) by apply registers_alloc.
  assert (Hn : store st1 !! length (store st) = Some [])
    by apply lookup_snoc_last.
  destruct (for_each_registers (length (store st)) "" "" good) with
    (st := st1) (cs := @nil klass) as (st2 & Hrun & Hreg2).
  - apply Forall_forall. intros r _. apply add_route_registers.
  - eapply forallb_allocated_mono; [|exact Hal].
    eapply registers_length; exact Hreg1.
  - exact Hro.
  - exact Hn.
  - pose proof (registers_trans _ _ _ _ _ Hreg1 Hreg2) as Hreg12.
    simpl app in Hreg12.
    assert (Hc2 : store st2 !! length (store st) = Some []).
    { eapply registers_lookup; [exact Hreg2 | exact Hn]. }
    destruct (lookup_lt_is_Some_2 _ _ Hcl) as [own Hown].
    assert (Hown2 : store st2 !! cl = Some own).
    { eapply registers_lookup; [exact Hreg12 | exact Hown]. }
    pose proof (list_add_run _ _ _ _ _ Hc2 Hown2) as Hadd.
    set (st3 := set_store st2 (store st2 ++ [[] ++ own])) in *.
    assert (Hn3 : store st3 !! length (store st2) = Some ([] ++ own))
      by apply lookup_snoc_last.
    destruct (or_empty_some_extends _ _ _ Hn3)
      as (l' & st4 & Hor & Hext4 & Hmap4 & _).
    exists st4. split.
    + unfold add_routes, add_routes_with. unfold bind at 1.
      rewrite or_empty_none_run. fold st1.
      rewrite for_each_app, Hrun, for_each_cons.
      unfold bind at 1. rewrite add_route_Include.
      unfold bind at 1. rewrite Hadd.
      unfold add_routes, add_routes_with. unfold bind at 1. now rewrite Hor.
    + assert (Hreg24 : registers st2 st4 []).
      { apply registers_nil_of_allocs.
        - eapply extends_trans; [apply extends_alloc | exact Hext4].
        - exact Hmap4. }
      pose proof (registers_trans _ _ _ _ _ Hreg12 Hreg24) as Hreg.
      rewrite app_nil_r in Hreg.
      unfold st1 in Hreg. cbn [store set_store] in Hreg.
      rewrite (binding_from_mono (length (store st))) in Hreg;
        [| lia | now apply flat_map_leaves_below].
      erewrite map_ext; [exact Hreg|]. intros gl. reflexivity.
Qed.

Lemma add_routes_keeps_rules_before_failure_witness :
  exists st' : state,
    add_routes
      (Some (nested_routes ++ Include "/broken" None 0 "" ::
             [Route "/late" controller JSONAPIHandler "GET" "late" 1]))
      None "" "" (State [[A]; [B]; [Plain]] [] []) = (Raise TypeError, st') /\
    registers (State [[A]; [B]; [Plain]] [] []) st'
      [Binding "/g/h/l" (Some "g.h.leaf") [A; B; Plain; JSONAPIHandler] ["GET"]].
Proof.
  apply (add_routes_keeps_rules_before_failure nested_routes
           [Route "/late" controller JSONAPIHandler "GET" "late" 1]
           "/broken" "" 0 (State [[A]; [B]; [Plain]] [] []));
    [reflexivity | reflexivity | simpl; lia].
Defined.

(** ** Which view each rule holds *)

Lemma wired_refl (st : state) : wired st st [].
Proof.
  exists [], []. rewrite !app_nil_r. repeat split.
  - now destruct st.
  - constructor.
  - constructor.
Qed.

Lemma wired_alloc (st : state) (xs : list klass) :
  wired st (set_store st (store st ++ [xs])) [].
Proof.
  exists [xs], []. rewrite app_nil_r. repeat split; constructor.
Qed.

Lemma wired_extends (st st' : state) (ctrls : list controller_t) :
  wired st st' ctrls -> extends st st'.
Proof. intros (e & r & -> & _). now exists e, r. Qed.

Lemma wired_trans (st1 st2 st3 : state) (c1 c2 : list controller_t) :
  wired st1 st2 c1 -> wired st2 st3 c2 -> wired st1 st3 (c1 ++ c2).
Proof.
  intros (e1 & r1 & -> & <- & Hb1 & Hn1) (e2 & r2 & -> & <- & Hb2 & Hn2).
  cbn [store url_map stdout] in *.
  exists (e1 ++ e2), (r1 ++ r2). rewrite !app_assoc. repeat split.
  - now rewrite map_app.
  - apply Forall_app. split.
    + eapply Forall_impl; [exact Hb1|]. simpl. intros r [Hlo Hhi].
      split; [exact Hlo|]. rewrite length_app. lia.
    + eapply Forall_impl; [exact Hb2|]. simpl. intros r [Hlo Hhi].
      split; [|exact Hhi]. rewrite length_app in Hlo. lia.
  - rewrite map_app. apply NoDup_app. split; [exact Hn1|]. split; [|exact Hn2].
    intros a Ha1 Ha2.
    apply list_elem_of_In, in_map_iff in Ha1 as (x1 & <- & Hx1).
    apply list_elem_of_In, in_map_iff in Ha2 as (x2 & Heq & Hx2).
    rewrite Forall_forall in Hb1, Hb2.
    apply list_elem_of_In in Hx1, Hx2.
    specialize (Hb1 _ Hx1). specialize (Hb2 _ Hx2). simpl in Hb1, Hb2. lia.
Qed.

Lemma or_empty_some_wired (l : loc) (st : state) (xs : list klass) :
  store st !! l = Some xs ->
  exists (l' : loc) (st' : state),
    or_empty (Some l) st = (Ret l', st') /\
    wired st st' [] /\
    store st' !! l' = Some xs.
Proof.
  intros Hl. unfold or_empty, bind. rewrite (list_bool_some _ _ _ Hl).
  destruct xs as [|x xs].
  - exists (length (store st)), (set_store st (store st ++ [[]])).
    repeat split; [apply wired_alloc | apply lookup_snoc_last].
  - exists l, st. repeat split; [apply wired_refl | exact Hl].
Qed.

Lemma for_each_wired (c : loc) (pre ns : string) (rs : list route_like) :
  Forall wires rs ->
  forall (st : state) (cs : list klass),
    forallb (allocated (length (store st))) rs = true ->
    forallb has_routes rs = true ->
    store st !! c = Some cs ->
    exists st' : state,
      for_each (fun route => add_route route c pre ns) rs st = (Ret tt, st') /\
      wired st st' (map (fun gl => l_controller (snd gl)) (flat_map leaves rs)).
Proof.
  induction 1 as [|r rs Hr _ IH]; intros st cs Hal Hro Hc.
  - exists st. split; [reflexivity | apply wired_refl].
  - simpl in Hal, Hro.
    apply andb_true_iff in Hal as [Hal_r Hal_rs].
    apply andb_true_iff in Hro as [Hro_r Hro_rs].
    destruct (Hr c pre ns st cs Hal_r Hro_r Hc) as (st1 & Hrun1 & Hw1).
    pose proof (wired_extends _ _ _ Hw1) as Hext1.
    destruct (IH st1 cs) as (st2 & Hrun2 & Hw2).
    + eapply forallb_allocated_mono; [|exact Hal_rs]. now apply extends_length.
    + exact Hro_rs.
    + eapply extends_lookup; eauto.
    + exists st2. split.
      * rewrite for_each_cons. unfold bind. now rewrite Hrun1.
      * simpl flat_map. rewrite map_app. eapply wired_trans; eauto.
Qed.

Lemma add_route_wires (r : route_like) : wires r.
Proof.
  induction r as [path ctrl h me na cl | prefix rs cl nsp IH]
    using route_like_induction;
    intros c pre ns st cs Hal Hro Hc.
  - simpl in Hal. apply Nat.ltb_lt in Hal.
    destruct (lookup_lt_is_Some_2 _ _ Hal) as [own Hown].
    eexists. split; [apply (add_route_leaf_run _ _ _ _ _ _ _ _ _ _ _ _ Hc Hown)|].
    exists [cs ++ own; [h]; (cs ++ own) ++ [h]],
      [UrlRule (format2 pre path) (str_or_none (format2 ns na))
         (Partial ctrl (S (S (length (store st))))) [me]].
    split; [reflexivity|]. split; [reflexivity|]. split.
    + constructor; [|constructor]. unfold view_addr. simpl.
      rewrite length_app. simpl. lia.
    + simpl. apply NoDup_singleton.
  - simpl in Hal, Hro. apply andb_true_iff in Hal as [Hcl Hal].
    apply Nat.ltb_lt in Hcl.
    destruct rs as [rs|]; [|discriminate].
    destruct (lookup_lt_is_Some_2 _ _ Hcl) as [own Hown].
    rewrite add_route_Include.
    pose proof (list_add_run _ _ _ _ _ Hc Hown) as Hadd.
    set (st1 := set_store st (store st ++ [cs ++ own])) in *.
    assert (Hw1 : wired st st1 []) by apply wired_alloc.
    assert (Hn : store st1 !! length (store st) = Some (cs ++ own))
      by apply lookup_snoc_last.
    destruct (or_empty_some_wired _ _ _ Hn) as (l' & st2 & Hor & Hw2 & Hl').
    pose proof (wired_trans _ _ _ _ _ Hw1 Hw2) as Hw12.
    destruct (for_each_wired l' (format2 pre prefix) (format2 ns nsp) rs IH
                st2 (cs ++ own)) as (st3 & Hrun & Hw3).
    + eapply forallb_allocated_mono; [|exact Hal].
      apply extends_length. eapply wired_extends; exact Hw12.
    + exact Hro.
    + exact Hl'.
    + exists st3. split.
      * unfold bind at 1. rewrite Hadd. unfold add_routes, add_routes_with.
        unfold bind at 1. now rewrite Hor.
      * pose proof (wired_trans _ _ _ _ _ Hw12 Hw3) as Hw.
        simpl app in Hw. simpl leaves. now rewrite map_map.
Qed.

Lemma add_routes_wired (routes : list route_like) (st : state) :
  forallb (allocated (length (store st))) routes = true ->
  forallb has_routes routes = true ->
  exists st' : state,
    add_routes (Some routes) None "" "" st = (Ret tt, st') /\
    wired st st' (map (fun gl => l_controller (snd gl)) (flat_map leaves routes)).
Proof.
  intros Hal Hro.
  set (st1 := set_store st (store st ++ [[]])).
  assert (Hw1 : wired st st1 []) by apply wired_alloc.
  assert (Hn : store st1 !! length (store st) = Some [])
    by apply lookup_snoc_last.
  destruct (for_each_wired (length (store st)) "" "" routes) with
    (st := st1) (cs := @nil klass) as (st2 & Hrun & Hw2).
  - apply Forall_forall. intros r _. apply add_route_wires.
  - eapply forallb_allocated_mono; [|exact Hal].
    apply extends_length. eapply wired_extends; exact Hw1.
  - exact Hro.
  - exact Hn.
  - exists st2. split.
    + unfold add_routes, add_routes_with, bind.
      rewrite or_empty_none_run. exact Hrun.
    + apply (wired_trans _ _ _ [] _ Hw1 Hw2).
Qed.

(** Everything [add_routes] sets up, in one statement. *)
Lemma add_routes_installs (routes : list route_like) (st : state) :
  forallb (allocated (length (store st))) routes = true ->
  forallb has_routes routes = true ->
  exists (ext : list (list klass)) (rules : list url_rule),
    add_routes (Some routes) None "" "" st =
      (Ret tt, State (store st ++ ext) (url_map st ++ rules) (stdout st)) /\
    map (resolve (store st ++ ext)) rules =
      map (binding_of (store st)) (flat_map leaves routes) /\
    map (fun r => fn (view_func r)) rules =
      map (fun gl => l_controller (snd gl)) (flat_map leaves routes) /\
    Forall (fun r => length (store st) <= view_addr r < length (store st ++ ext))
           rules /\
    NoDup (map view_addr rules).
Proof.
  intros Hal Hro.
  destruct (add_routes_registers routes st Hal Hro)
    as (st1 & Hrun1 & e1 & r1 & Heq1 & _ & Hres).
  destruct (add_routes_wired routes st Hal Hro)
    as (st2 & Hrun2 & e2 & r2 & Heq2 & Hfn & Hb & Hnd).
  rewrite Hrun1 in Hrun2. injection Hrun2 as <-.
  rewrite Heq1 in Heq2. injection Heq2 as He Hr.
  apply app_inv_head in He, Hr. subst e2 r2.
  exists e1, r1. rewrite Hrun1, Heq1. repeat split; assumption.
Qed.

Lemma lookup_map {T U : Type} (f : T -> U) (l : list T) (i : nat) :
  map f l !! i = option_map f (l !! i).
Proof.
  revert i. induction l as [|x l IH]; intros [|i]; simpl; try reflexivity.
  apply IH.
Qed.

(** X11.  For a forest whose groups all have routes, [add_routes] adds
    exactly one rule per leaf, in depth-first order.  The rule of a leaf has
    for path the prefixes of the groups above it and its own path joined
    with nothing in between, for name the namespaces and its own name
    joined the same way (or none when that is empty), for methods the
    leaf's method alone, and its closure calls the leaf's controller. *)
Theorem add_routes_rule_fields (routes : list route_like) (st : state) :
  forallb (allocated (length (store st))) routes = true ->
  forallb has_routes routes = true ->
  exists (st' : state) (rules : list url_rule),
    add_routes (Some routes) None "" "" st = (Ret tt, st') /\
    url_map st' = url_map st ++ rules /\
    length rules = length (flat_map leaves routes) /\
    map (fun r => (rule r, endpoint r, methods r)) rules =
      map (fun gl =>
             (concat_str (map g_prefix (fst gl)) +:+ l_path (snd gl),
              str_or_none
                (concat_str (map g_namespace (fst gl)) +:+ l_name (snd gl)),
              [l_method (snd gl)]))
          (flat_map leaves routes) /\
    map (fun r => fn (view_func r)) rules =
      map (fun gl => l_controller (snd gl)) (flat_map leaves routes).
Proof.
  intros Hal Hro.
  destruct (add_routes_installs routes st Hal Hro)
    as (ext & rules & Hrun & Hres & Hfn & _ & _).
  eexists. exists rules. split; [exact Hrun|]. split; [reflexivity|].
  split; [|split; [|exact Hfn]].
  - apply (f_equal length) in Hfn. now rewrite !length_map in Hfn.
  - apply (f_equal (map (fun b => (b_path b, b_name b, b_methods b)))) in Hres.
    rewrite !map_map in Hres. exact Hres.
Qed.

Lemma add_routes_rule_fields_witness :
  exists (st' : state) (rules : list url_rule),
    add_routes (Some nested_routes) None "" "" (State [[A]; [B]; [Plain]] [] []) =
      (Ret tt, st') /\
    url_map st' = [] ++ rules /\
    length rules = 1 /\
    map (fun r => (rule r, endpoint r, methods r)) rules =
      [("/g/h/l", Some "g.h.leaf", ["GET"])] /\
    map (fun r => fn (view_func r)) rules = [controller].
Proof.
  apply (add_routes_rule_fields nested_routes (State [[A]; [B]; [Plain]] [] []));
    reflexivity.
Defined.

(** X12.  Every rule that [add_routes] adds gets a list object of its own:
    the list bound in its closure is none of the lists that existed before
    (so none of the [components] lists of the tree), and no two rules share
    one. *)
Theorem add_routes_gives_each_rule_its_own_list (routes : list route_like)
  (st : state) :
  forallb (allocated (length (store st))) routes = true ->
  forallb has_routes routes = true ->
  exists (st' : state) (rules : list url_rule),
    add_routes (Some routes) None "" "" st = (Ret tt, st') /\
    url_map st' = url_map st ++ rules /\
    Forall (fun r => length (store st) <= view_addr r < length (store st')) rules /\
    NoDup (map view_addr rules).
Proof.
  intros Hal Hro.
  destruct (add_routes_installs routes st Hal Hro)
    as (ext & rules & Hrun & _ & _ & Hb & Hnd).
  eexists. exists rules. split; [exact Hrun|]. now repeat split.
Qed.

(** Two leaves under one group. *)
Lemma add_routes_gives_each_rule_its_own_list_witness :
  let routes :=
    [Include "/g" (Some [Route "/a" controller JSONAPIHandler "GET" "a" 1;
                         Route "/b" controller JSONAPIHandler "GET" "b" 1]) 0 ""] in
  exists (st' : state) (rules : list url_rule),
    add_routes (Some routes) None "" "" (State [[A]; [B]] [] []) = (Ret tt, st') /\
    url_map st' = [] ++ rules /\
    Forall (fun r => 2 <= view_addr r < length (store st')) rules /\
    NoDup (map view_addr rules).
Proof.
  intros routes.
  apply (add_routes_gives_each_rule_its_own_list routes (State [[A]; [B]] [] []));
    reflexivity.
Defined.

(** ** Calling the registered views *)





(** X14.  Calling a registered view disturbs nothing else: whatever the call
    does, the URL map is as before, every list object that existed before
    registration (so every [components] list of the tree) holds the same
    items, and the lists of all the other rules are untouched, so each of
    them can still be dispatched. *)
Theorem registered_views_do_not_interfere (routes : list route_like)
  (st : state) :
  forallb (allocated (length (store st))) routes = true ->
  forallb has_routes routes = true ->
  exists (st' : state) (rules : list url_rule),
    add_routes (Some routes) None "" "" st = (Ret tt, st') /\
    url_map st' = url_map st ++ rules /\
    forall (i : nat) (r : url_rule) (uri_args : kwargs),
      rules !! i = Some r ->
      let st'' := snd (call_view (view_func r) uri_args st') in
      url_map st'' = url_map st' /\
      (forall (l : loc) (xs : list klass),
          store st !! l = Some xs -> store st'' !! l = Some xs) /\
      (forall (j : nat) (r' : url_rule),
          j <> i -> rules !! j = Some r' ->
          store st'' !! view_addr r' = store st' !! view_addr r').
Proof.
  intros Hal Hro.
  destruct (add_routes_installs routes st Hal Hro)
    as (ext & rules & Hrun & _ & _ & Hb & Hnd).
  eexists. exists rules. split; [exact Hrun|]. split; [reflexivity|].
  intros i r uri_args Hr st''. subst st''.
  rewrite Forall_forall in Hb.
  assert (Hin : r ∈ rules) by (eapply list_elem_of_lookup_2; exact Hr).
  destruct (Hb _ Hin) as [Hlo Hhi].
  destruct (lookup_lt_is_Some_2 _ _ Hhi) as [items Hitems].
  unfold call_view. fold (view_addr r).
  destruct (dispatch_request_shape (fn (view_func r)) (view_addr r) uri_args
              (State (store st ++ ext) (url_map st ++ rules) (stdout st))
              items Hitems) as (o & kept & popped & printed & -> & _).
  cbn [snd store url_map stdout]. split; [reflexivity|]. split.
  - intros l xs Hl.
    assert (l < length (store st)) by (eapply lookup_lt_Some; exact Hl).
    rewrite list_lookup_insert_ne by lia. now apply lookup_app_l_Some.
  - intros j r' Hne Hr'. apply list_lookup_insert_ne.
    intros Heq. apply Hne. symmetry.
    eapply (NoDup_lookup (map view_addr rules)); [exact Hnd | |].
    + rewrite lookup_map, Hr. reflexivity.
    + rewrite lookup_map, Hr'. simpl. now rewrite Heq.
Qed.

Lemma registered_views_do_not_interfere_witness :
  let routes :=
    [Include "/g" (Some [Route "/a" controller JSONAPIHandler "GET" "a" 1;
                         Route "/b" controller JSONAPIHandler "GET" "b" 1]) 0 ""] in
  exists (st' : state) (rules : list url_rule),
    add_routes (Some routes) None "" "" (State [[A]; [B]] [] []) = (Ret tt, st') /\
    url_map st' = [] ++ rules /\
    forall (i : nat) (r : url_rule) (uri_args : kwargs),
      rules !! i = Some r ->
      let st'' := snd (call_view (view_func r) uri_args st') in
      url_map st'' = url_map st' /\
      (forall (l : loc) (xs : list klass),
          [[A]; [B]] !! l = Some xs -> store st'' !! l = Some xs) /\
      (forall (j : nat) (r' : url_rule),
          j <> i -> rules !! j = Some r' ->
          store st'' !! view_addr r' = store st' !! view_addr r').
Proof.
  intros routes.
  apply (registered_views_do_not_interfere routes (State [[A]; [B]] [] []));
    reflexivity.
Defined.

(** ** The constructors of routes and groups *)

(** What [components or []] evaluates to, and what it does to the store. *)
Lemma or_empty_run (components : option loc) (st : state) :
  match components with
  | None => True
  | Some l => l < length (store st)
  end ->
  exists (l' : loc) (st' : state),
    or_empty components st = (Ret l', st') /\
    extends st st' /\ url_map st' = url_map st /\
    l' < length (store st') /\
    contents (store st') l' =
      match components with
      | None => []
      | Some l => contents (store st) l
      end /\
    (forall l x xs, components = Some l ->
                    store st !! l = Some (x :: xs) -> l' = l /\ st' = st) /\
    (match components with
     | None => True
     | Some l => store st !! l = Some []
     end ->
     l' = length (store st) /\ st' = set_store st (store st ++ [[]])).
Proof.
  destruct components as [l|]; intros H.
  - destruct (lookup_lt_is_Some_2 _ _ H) as [xs Hxs].
    unfold or_empty, bind. rewrite (list_bool_some _ _ _ Hxs).
    destruct xs as [|x xs].
    + exists (length (store st)), (set_store st (store st ++ [[]])).
      split; [reflexivity|]. split; [apply extends_alloc|].
      split; [reflexivity|]. split; [|split; [|split]].
      * simpl. rewrite length_app. simpl. lia.
      * rewrite (contents_lookup _ _ [] Hxs).
        apply contents_lookup, lookup_snoc_last.
      * intros l0 y ys Heq Hy. injection Heq as <-.
        pose proof (eq_trans (eq_sym Hxs) Hy) as Hc. discriminate Hc.
      * now intros _.
    + exists l, st.
      split; [reflexivity|]. split; [apply extends_refl|].
      split; [reflexivity|]. split; [exact H|]. split; [reflexivity|]. split.
      * intros l0 y ys Heq _. injection Heq as <-. now split.
      * intros Hnil. pose proof (eq_trans (eq_sym Hxs) Hnil) as Hc.
        discriminate Hc.
  - exists (length (store st)), (set_store st (store st ++ [[]])).
    split; [reflexivity|]. split; [apply extends_alloc|].
    split; [reflexivity|]. split; [|split; [|split]].
    + simpl. rewrite length_app. simpl. lia.
    + apply contents_lookup, lookup_snoc_last.
    + discriminate.
    + now intros _.
Qed.

(** X15.  [Route(...)] and [Include(...)] store [components or []].  A list
    with items is stored as the very object passed, and nothing changes in
    the store.  When [None] or a list without items is passed, the node
    gets a new empty list of its own: a list object that did not exist
    before, added at the end of the store, and not the empty list that was
    passed.  In both cases the node's list holds the items of the list
    passed, no existing list object and no rule changes, and the node's
    [components] list exists, as do the lists of the routes given to an
    [Include]. *)
Theorem constructors_store_components_or_empty (components : option loc)
  (st : state) :
  match components with
  | None => True
  | Some l => l < length (store st)
  end ->
  (forall path ctrl h me na,
      exists (cl : loc) (st' : state),
        Route__init__ path ctrl h me na components st =
          (Ret (Route path ctrl h me na cl), st') /\
        extends st st' /\ url_map st' = url_map st /\
        allocated (length (store st')) (Route path ctrl h me na cl) = true /\
        contents (store st') cl =
          match components with
          | None => []
          | Some l => contents (store st) l
          end /\
        (forall l x xs, components = Some l ->
                        store st !! l = Some (x :: xs) -> cl = l /\ st' = st) /\
        (match components with
         | None => True
         | Some l => store st !! l = Some []
         end ->
         cl = length (store st) /\ st' = set_store st (store st ++ [[]]))) /\
  (forall prefix rs ns,
      forallb (allocated (length (store st))) rs = true ->
      exists (cl : loc) (st' : state),
        Include__init__ prefix (Some rs) components ns st =
          (Ret (Include prefix (Some rs) cl ns), st') /\
        extends st st' /\ url_map st' = url_map st /\
        allocated (length (store st')) (Include prefix (Some rs) cl ns) = true /\
        contents (store st') cl =
          match components with
          | None => []
          | Some l => contents (store st) l
          end /\
        (forall l x xs, components = Some l ->
                        store st !! l = Some (x :: xs) -> cl = l /\ st' = st) /\
        (match components with
         | None => True
         | Some l => store st !! l = Some []
         end ->
         cl = length (store st) /\ st' = set_store st (store st ++ [[]]))).
Proof.
  intros H.
  destruct (or_empty_run components st H)
    as (cl & st' & Hrun & Hext & Hmap & Hlt & Hcont & Hsame & Hnew).
  split.
  - intros path ctrl h me na. exists cl, st'.
    unfold Route__init__, bind. rewrite Hrun.
    split; [reflexivity|]. split; [exact Hext|]. split; [exact Hmap|].
    split; [|split; [exact Hcont | split; [exact Hsame | exact Hnew]]].
    simpl. now apply Nat.ltb_lt.
  - intros prefix rs ns Hrs. exists cl, st'.
    unfold Include__init__, bind. rewrite Hrun.
    split; [reflexivity|]. split; [exact Hext|]. split; [exact Hmap|].
    split; [|split; [exact Hcont | split; [exact Hsame | exact Hnew]]].
    simpl. apply andb_true_iff. split; [now apply Nat.ltb_lt|].
    eapply forallb_allocated_mono; [|exact Hrs]. now apply extends_length.
Qed.

Lemma constructors_store_components_or_empty_witness :
  (exists (cl : loc) (st' : state),
      Route__init__ "/<id>" controller JSONAPIHandler "GET" "test" (Some 0)
        (State [[B]] [] []) =
        (Ret (Route "/<id>" controller JSONAPIHandler "GET" "test" cl), st') /\
      cl = 0 /\ st' = State [[B]] [] []) /\
  (exists (cl : loc) (st' : state),
      Route__init__ "/<id>" controller JSONAPIHandler "GET" "test" (Some 0)
        (State [[]] [] []) =
        (Ret (Route "/<id>" controller JSONAPIHandler "GET" "test" cl), st') /\
      cl = 1 /\ st' = State [[]; []] [] []) /\
  (exists (cl : loc) (st' : state),
      Include__init__ "/users" (Some []) None "" (State [[B]] [] []) =
        (Ret (Include "/users" (Some []) cl ""), st') /\
      cl = 1 /\ st' = State [[B]; []] [] []).
Proof.
  split; [|split].
  - destruct (constructors_store_components_or_empty (Some 0) (State [[B]] [] []))
      as [HR _]; [simpl; lia|].
    destruct (HR "/<id>" controller JSONAPIHandler "GET" "test")
      as (cl & st' & Hrun & _ & _ & _ & _ & Hsame & _).
    exists cl, st'. split; [exact Hrun|]. now apply (Hsame 0 B []).
  - destruct (constructors_store_components_or_empty (Some 0) (State [[]] [] []))
      as [HR _]; [simpl; lia|].
    destruct (HR "/<id>" controller JSONAPIHandler "GET" "test")
      as (cl & st' & Hrun & _ & _ & _ & _ & _ & Hnew).
    exists cl, st'. split; [exact Hrun|]. now apply Hnew.
  - destruct (constructors_store_components_or_empty None (State [[B]] [] []))
      as [_ HI]; [exact I|].
    destruct (HI "/users" [] "" eq_refl)
      as (cl & st' & Hrun & _ & _ & _ & _ & _ & Hnew).
    exists cl, st'. split; [exact Hrun|]. now apply Hnew.
Defined.
